(** * vmuser: the resilient HTTP fetching layer (package [requests])

    A shallow embedding of [ext/httpext/requests]: the retry engine
    ([RetryRequest.GetResponse] and the content fetchers built on it), the
    network outage probe, the redirect chaser and the JSONL stream fetcher.

    Conventions.
    - Go [int], [int64] and [time.Duration] (nanoseconds) are [Z]; where the
      source computes on them the 64-bit wrap-around is written out
      ([wrap64]).
    - A Go [error] is a value of the inductive type [error]; a possibly nil
      error is an [option error].  [Error] gives the message, [Unwrap] the
      wrapped cause, [is_ctxErr] and [Is404NoRetryError] follow the chain
      like [errors.Is].
    - The network, the clock, the rate limiter and the scheduler are the
      environment: a record [Env] of oracles.  The state threaded through the
      code is a [World]: the virtual clock, the number of exchanges sent, the
      response bodies that are still open and a log of what happened. *)

From Stdlib Require Import ZArith List String Ascii Bool Lia Permutation.
Import ListNotations.
Local Open Scope string_scope.
Local Open Scope Z_scope.

(** ** Strings *)

Module strings.

(** [strings.HasPrefix]. *)
Definition HasPrefix (s p : string) : bool := String.prefix p s.

(** [strings.Contains]: [sub] occurs somewhere in [s]. *)
Fixpoint Contains (s sub : string) : bool :=
  if String.prefix sub s then true
  else match s with
       | EmptyString => false
       | String _ rest => Contains rest sub
       end.

(** [strings.Trim] for a cutset of one character [c] (the source trims the
    double quote): drop the leading and the trailing occurrences of [c]. *)
Fixpoint TrimLeft (s : string) (c : ascii) : string :=
  match s with
  | String a rest => if Ascii.eqb a c then TrimLeft rest c else s
  | EmptyString => EmptyString
  end.

Fixpoint TrimRight (s : string) (c : ascii) : string :=
  match s with
  | EmptyString => EmptyString
  | String a rest =>
      match TrimRight rest c with
      | EmptyString => if Ascii.eqb a c then EmptyString else String a EmptyString
      | rest' => String a rest'
      end
  end.

Definition Trim (s : string) (c : ascii) : string := TrimRight (TrimLeft s c) c.

End strings.

(** ** Machine integers and durations *)

Definition two63 : Z := 2 ^ 63.
Definition two64 : Z := 2 ^ 64.

(** The value an [int64] holds after an operation whose exact result is [z]. *)
Definition wrap64 (z : Z) : Z := (z + two63) mod two64 - two63.


(** [1 << n] at type [time.Duration], for a shift count [n >= 0]. *)
Definition shl1 (n : Z) : Z := wrap64 (Z.shiftl 1 n).

(** [a * b] at type [time.Duration]. *)
Definition mul64 (a b : Z) : Z := wrap64 (a * b).

Definition Nanosecond : Z := 1.
Definition Second : Z := 1000000000.
Definition Minute : Z := 60 * Second.
Definition Hour : Z := 60 * Minute.

(** ** Errors *)

(** [ctx.Err()] once a context is done. *)
Inductive ctxErr := Canceled | DeadlineExceeded.

(** What [http.Client.Do] fails with: a [*url.Error] around a cause.  The
    cause is a context error when the request's context ended, and otherwise
    some network error of which only the text matters here. *)
Inductive cause :=
| CauseCtx (e : ctxErr)
| CauseNet (msg : string).

#[local] Set Warnings "-register-all".
Inductive error :=
| ContextErr (e : ctxErr)                         (* context.Canceled, context.DeadlineExceeded *)
| ErrNetworkUnavailableAfterMaxWait
| ErrNotFoundNoRetry
| StatusCodeError (StatusCode : Z) (URL Message : string)
| UrlError (Op URL : string) (c : cause)          (* from client.Do *)
| ErrorString (msg : string)                      (* errors.New, fmt.Errorf without %w *)
| Wrapf (pre : string) (wrapped : option error) (post : string).
                                                  (* fmt.Errorf(pre + "%w" + post, wrapped) *)

Definition ctxErr_Error (e : ctxErr) : string :=
  match e with
  | Canceled => "context canceled"
  | DeadlineExceeded => "context deadline exceeded"
  end.

Definition cause_Error (c : cause) : string :=
  match c with
  | CauseCtx e => ctxErr_Error e
  | CauseNet msg => msg
  end.

(** The double quote, as a string. *)
Definition dquote : string := String (Ascii.ascii_of_nat 34) EmptyString.

(** [err.Error()].  A [*url.Error] prints its url quoted.  [fmt.Errorf] prints a nil operand of [%w] as
    [%!w(<nil>)]. *)
Fixpoint Error (e : error) : string :=
  match e with
  | ContextErr c => ctxErr_Error c
  | ErrNetworkUnavailableAfterMaxWait => "network unavailable after max wait"
  | ErrNotFoundNoRetry => "404 Not Found, not retrying due to NoRetry404 option"
  | StatusCodeError _ url msg => msg ++ ": " ++ url
  | UrlError op url c => op ++ " " ++ dquote ++ url ++ dquote ++ ": " ++ cause_Error c
  | ErrorString msg => msg
  | Wrapf pre (Some w) post => pre ++ Error w ++ post
  | Wrapf pre None post => pre ++ "%!w(<nil>)" ++ post
  end.

(** [errors.Unwrap]. *)
Definition Unwrap (e : error) : option error :=
  match e with
  | Wrapf _ w _ => w
  | UrlError _ _ (CauseCtx c) => Some (ContextErr c)
  | UrlError _ _ (CauseNet msg) => Some (ErrorString msg)
  | _ => None
  end.

Definition ctxErr_eqb (a b : ctxErr) : bool :=
  match a, b with
  | Canceled, Canceled | DeadlineExceeded, DeadlineExceeded => true
  | _, _ => false
  end.

(** [errors.Is(err, context.Canceled)] and [errors.Is(err,
    context.DeadlineExceeded)]: is the context error [c] on the chain of
    [e]. *)
Fixpoint is_ctxErr (c : ctxErr) (e : error) : bool :=
  match e with
  | ContextErr c' => ctxErr_eqb c c'
  | UrlError _ _ (CauseCtx c') => ctxErr_eqb c c'
  | Wrapf _ (Some w) _ => is_ctxErr c w
  | _ => false
  end.

Definition errors_Is_ctx (err : option error) (c : ctxErr) : bool :=
  match err with
  | Some e => is_ctxErr c e
  | None => false
  end.

(** [errors.Is(err, ErrNotFoundNoRetry)], as in [Is404NoRetryError]. *)
Fixpoint Is404NoRetryError (e : error) : bool :=
  match e with
  | ErrNotFoundNoRetry => true
  | Wrapf _ (Some w) _ => Is404NoRetryError w
  | _ => false
  end.

Definition ErrNotFound_Message : string := "404 Not Found".
Definition ErrUnprocessableEntity_Message : string := "422 Unprocessable Entity".

Definition StatusNotFound : Z := 404.
Definition StatusUnprocessableEntity : Z := 422.
Definition StatusTooManyRequests : Z := 429.
Definition StatusOK : Z := 200.
Definition StatusPartialContent : Z := 206.

(** ** network_down_detection.go *)

Definition IsPossibleNetworkOrDNSIssueErr (err : option error) (url : string) : bool :=
  match err with
  | None => false
  | Some e =>
      let errMsg := Error e in
      if strings.Contains errMsg "dial tcp" && strings.Contains errMsg "i/o timeout"
      then true
      else false
  end.

Definition probe_urls : list string :=
  [ "https://www.google.com";
    "https://wikipedia.org";
    "https://twitter.com/home";
    "https://www.facebook.com" ].

(** The receiving loop of [isNetworkAvailableCheck]: [responses] is what the
    channel delivers, in the order of arrival; the loop stops at the first
    [true]. *)
Fixpoint drain_responses (responses : list bool) : bool :=
  match responses with
  | [] => false
  | ok :: rest => if ok then true else drain_responses rest
  end.

(** [isNetworkAvailableCheck].  One goroutine per url sends [err == nil] of
    its GET on the channel; [probe url] is that value and [arrival] the order
    in which the goroutines finish (a permutation of [probe_urls], chosen by
    the scheduler). *)
Definition isNetworkAvailableCheck (probe : string -> bool) (arrival : list string) : bool :=
  drain_responses (map probe arrival).

(** [IsNetworkUnavailable]. *)
Definition IsNetworkUnavailable (probe : string -> bool) (arrival : list string)
    (err : option error) (url : string) : bool :=
  if negb (IsPossibleNetworkOrDNSIssueErr err url) then false
  else isNetworkAvailableCheck probe arrival.

(** ** The environment and the state *)

(** A context: the instant at which [ctx.Done()] is closed, if ever, and what
    [ctx.Err()] is from then on. *)
Record Context := {
  doneAt : option Z;
  doneErr : ctxErr
}.

(** [context.Background()]. *)
Definition Background : Context := {| doneAt := None; doneErr := Canceled |}.

(** [ctx.Done()] is closed at the instant [t]. *)
Definition ctx_done (ctx : Context) (t : Z) : bool :=
  match doneAt ctx with
  | Some c => c <=? t
  | None => false
  end.

(** The body of a response as a stream: what can be read from it, and the
    error the reads end with (nil at a clean end of file). *)
Record BodyData := {
  bytes : string;
  readErr : option error
}.

(** What the server answered. *)
Record Reply := {
  status : Z;
  ContentEncoding : string;                 (* header Content-Encoding *)
  ContentType : string;                     (* header Content-Type *)
  ContentLength : Z;                        (* resp.ContentLength, -1 when unknown *)
  RequestURL : string;                      (* resp.Request.URL, after HTTP redirects *)
  payload : BodyData
}.

(** An [*http.Response]: the reply and the handle of its body, which is the
    number of the exchange that produced it. *)
Record Response := {
  Body : nat;
  reply : Reply
}.

Definition StatusCode (resp : Response) : Z := status (reply resp).

(** One call of [client.Do]: a reply or a failure, and the time it took. *)
Record Exchange := {
  result : Reply + cause;
  elapsed : Z
}.

Record Env := {
  (** [client.Do] for the [k]-th exchange of the run, sent to [url]. *)
  transport : nat -> string -> Exchange;
  (** [http.NewRequestWithContext]: the error for a url that does not parse. *)
  newRequestErr : string -> option error;
  (** the rate limiter: the error with which it refuses a call whose one
      token exceeds its burst, the error with which it refuses a wait that
      would pass the deadline of the context, and how long it makes this
      call wait for its token *)
  limiterBurstError : option string;
  limiterDeadlineError : option string;
  limiterDelay : Z;
  (** the outage probe: success of the GET per probe url, order of arrival
      of the goroutines' results, and the time the probing takes *)
  probe : string -> bool;
  arrival : list string;
  probeElapsed : Z;
  (** what [select] picks when the context ends at the very instant the
      timer fires: [true] for the [ctx.Done()] case *)
  selectTie : bool;
  (** [gzip.NewReader] and [charset.NewReader]: the decoded stream, or the
      error of the constructor; the second takes the content type *)
  gzip_NewReader : BodyData -> error + BodyData;
  charset_NewReader : BodyData -> string -> error + BodyData
}.

Inductive Phase := MainLoop | Recovery.

Inductive Event :=
| EvGetResponse (url : string)              (* GetResponse entered *)
| EvLimiterWait
| EvDo (ph : Phase) (k : nat) (url : string)      (* client.Do, exchange k *)
| EvCancel (k : nat)                        (* cancel() of exchange k called *)
| EvClose (k : nat)                         (* resp.Body.Close() of exchange k *)
| EvBackoff (d : Z)                         (* the timer of backoff started *)
| EvSleep (d : Z)                           (* time.Sleep(d) *)
| EvProbe                                   (* isNetworkAvailableCheck ran *)
| EvStreamGet (k : nat) (range : option Z)  (* stream poll, with its Range offset *)
| EvSend (line : string).                   (* resultChan <- line *)

Record World := {
  now : Z;                                  (* the clock *)
  sent : nat;                               (* exchanges sent so far *)
  opened : list nat;                        (* bodies not yet closed *)
  log : list Event                          (* latest first *)
}.

Definition World0 : World := {| now := 0; sent := 0; opened := []; log := [] |}.

(** ** Computations *)

(** A Go function call either returns, panics, or (in the model only) is cut
    off because the fuel given to an unbounded loop ran out. *)
Inductive Outcome (A : Type) :=
| Done (a : A)
| Panicked
| OutOfFuel.
Arguments Done {A} a.
Arguments Panicked {A}.
Arguments OutOfFuel {A}.

Definition M (A : Type) : Type := World -> Outcome A * World.

Definition ret {A} (a : A) : M A := fun w => (Done a, w).

Definition bind {A B} (m : M A) (f : A -> M B) : M B :=
  fun w =>
    match m w with
    | (Done a, w') => f a w'
    | (Panicked, w') => (Panicked, w')
    | (OutOfFuel, w') => (OutOfFuel, w')
    end.

Definition panic {A} : M A := fun w => (Panicked, w).
Definition diverge {A} : M A := fun w => (OutOfFuel, w).

Declare Scope go_scope.
Delimit Scope go_scope with go.
Notation "x <- m ;; k" := (bind m (fun x => k))
  (at level 61, m at next level, right associativity) : go_scope.
Notation "m ;;; k" := (bind m (fun _ => k))
  (at level 61, right associativity) : go_scope.
Local Open Scope go_scope.

Definition emit (e : Event) : M unit :=
  fun w => (Done tt, {| now := now w; sent := sent w; opened := opened w; log := e :: log w |}).

(** Let [d] pass; a non-positive duration takes no time. *)
Definition tick (d : Z) : M unit :=
  fun w => (Done tt, {| now := now w + Z.max 0 d; sent := sent w; opened := opened w; log := log w |}).

Definition time_Now : M Z := fun w => (Done (now w), w).

(** [time.Sleep(d)]: nothing interrupts it. *)
Definition time_Sleep (d : Z) : M unit := emit (EvSleep d) ;;; tick d.

(** [select { case <-ctx.Done(): return ctx.Err(); case <-timer: return nil }]
    for a timer of duration [d] started now.  The result is the error of the
    context when it ends before the timer fires, nil when the timer fires
    first, and the environment's choice when both happen together. *)
Definition select_ctx_timer (tie : bool) (ctx : Context) (d : Z) : M (option error) :=
  fun w =>
    let fire := now w + Z.max 0 d in
    let at_ t e := (Done e, {| now := t; sent := sent w; opened := opened w; log := log w |}) in
    match doneAt ctx with
    | None => at_ fire None
    | Some c =>
        let ready := Z.max (now w) c in
        if ready <? fire then at_ ready (Some (ContextErr (doneErr ctx)))
        else if fire <? ready then at_ fire None
        else if tie then at_ ready (Some (ContextErr (doneErr ctx)))
        else at_ fire None
    end.

(** [resp.Body.Close()]. *)
Definition Body_Close (resp : Response) : M unit :=
  fun w => (Done tt, {| now := now w; sent := sent w;
                        opened := List.remove Nat.eq_dec (Body resp) (opened w);
                        log := EvClose (Body resp) :: log w |}).

(** Calling a [context.CancelFunc]; a nil one panics. *)
Definition call_cancel (cancel : option nat) : M unit :=
  match cancel with
  | Some k => emit (EvCancel k)
  | None => panic
  end.

(** ** sec_request.go: the retry engine *)

(** [RetryRequest], without the header set, the client and the limiter, which
    are the environment's. *)
Record RetryRequest := {
  maxRetries : Z;
  backoffFactor : Z;
  isRateLimited : bool;
  requestTimeout : Z;
  noRetry404 : bool;
  noRetry422 : bool;
  longBackOffOn429 : Z;
  resolveNetworkUnavailable : bool;
  networkUnavailableBackOff : Z;
  networkUnavailableMaxWait : Z
}.

Definition DefaultMaxRetries : Z := 5.
Definition DefaultBackoffFactor : Z := 3 * Second.
Definition DefaultRequestTimeout : Z := 60 * Second.
Definition DefaultNetworkUnavailableBackOff : Z := 5 * Minute.
Definition DefaultNetworkUnavailableMaxWait : Z := 6 * Hour.

(** [NewRetryRequest()] with no option. *)
Definition NewRetryRequest : RetryRequest := {|
  maxRetries := DefaultMaxRetries;
  backoffFactor := DefaultBackoffFactor;
  isRateLimited := false;
  requestTimeout := DefaultRequestTimeout;
  noRetry404 := false;
  noRetry422 := false;
  longBackOffOn429 := 0;
  resolveNetworkUnavailable := false;
  networkUnavailableBackOff := 0;
  networkUnavailableMaxWait := 0
|}.

(** The functional options. *)
Definition WithAttemptsAndBackoff (attempts backoff : Z) (r : RetryRequest) : RetryRequest :=
  {| maxRetries := attempts; backoffFactor := backoff;
     isRateLimited := isRateLimited r; requestTimeout := requestTimeout r;
     noRetry404 := noRetry404 r; noRetry422 := noRetry422 r;
     longBackOffOn429 := longBackOffOn429 r;
     resolveNetworkUnavailable := resolveNetworkUnavailable r;
     networkUnavailableBackOff := networkUnavailableBackOff r;
     networkUnavailableMaxWait := networkUnavailableMaxWait r |}.

(** [WithRateLimiting(limit, burst)]: the limiter itself is the
    environment's. *)
Definition WithRateLimiting (r : RetryRequest) : RetryRequest :=
  {| maxRetries := maxRetries r; backoffFactor := backoffFactor r;
     isRateLimited := true; requestTimeout := requestTimeout r;
     noRetry404 := noRetry404 r; noRetry422 := noRetry422 r;
     longBackOffOn429 := longBackOffOn429 r;
     resolveNetworkUnavailable := resolveNetworkUnavailable r;
     networkUnavailableBackOff := networkUnavailableBackOff r;
     networkUnavailableMaxWait := networkUnavailableMaxWait r |}.

Definition WithNoRetry404 (r : RetryRequest) : RetryRequest :=
  {| maxRetries := maxRetries r; backoffFactor := backoffFactor r;
     isRateLimited := isRateLimited r; requestTimeout := requestTimeout r;
     noRetry404 := true; noRetry422 := noRetry422 r;
     longBackOffOn429 := longBackOffOn429 r;
     resolveNetworkUnavailable := resolveNetworkUnavailable r;
     networkUnavailableBackOff := networkUnavailableBackOff r;
     networkUnavailableMaxWait := networkUnavailableMaxWait r |}.

Definition WithNoRetry422 (r : RetryRequest) : RetryRequest :=
  {| maxRetries := maxRetries r; backoffFactor := backoffFactor r;
     isRateLimited := isRateLimited r; requestTimeout := requestTimeout r;
     noRetry404 := noRetry404 r; noRetry422 := true;
     longBackOffOn429 := longBackOffOn429 r;
     resolveNetworkUnavailable := resolveNetworkUnavailable r;
     networkUnavailableBackOff := networkUnavailableBackOff r;
     networkUnavailableMaxWait := networkUnavailableMaxWait r |}.

Definition WithNetworkRetryPolicy (backOff maxWaitTime : Z) (r : RetryRequest) : RetryRequest :=
  {| maxRetries := maxRetries r; backoffFactor := backoffFactor r;
     isRateLimited := isRateLimited r; requestTimeout := requestTimeout r;
     noRetry404 := noRetry404 r; noRetry422 := noRetry422 r;
     longBackOffOn429 := longBackOffOn429 r;
     resolveNetworkUnavailable := true;
     networkUnavailableBackOff := backOff;
     networkUnavailableMaxWait := maxWaitTime |}.

Definition WithLongBackOffOn429 (backoff : Z) (r : RetryRequest) : RetryRequest :=
  {| maxRetries := maxRetries r; backoffFactor := backoffFactor r;
     isRateLimited := isRateLimited r; requestTimeout := requestTimeout r;
     noRetry404 := noRetry404 r; noRetry422 := noRetry422 r;
     longBackOffOn429 := backoff;
     resolveNetworkUnavailable := resolveNetworkUnavailable r;
     networkUnavailableBackOff := networkUnavailableBackOff r;
     networkUnavailableMaxWait := networkUnavailableMaxWait r |}.

(** What [GetResponse] returns: a response, a [context.CancelFunc] and an
    error, each possibly nil.  A cancel function is named by its exchange. *)
Definition Ret : Type := option Response * option nat * option error.

(** The duration [backoff] waits for: [r.backoffFactor * time.Duration(1<<attempt)],
    replaced by the long backoff on a 429 when that is longer. *)
Definition backoffDuration (r : RetryRequest) (attempt : Z) (resp : option Response) : Z :=
  let backoffDuration := mul64 (backoffFactor r) (shl1 attempt) in
  match resp with
  | Some rsp =>
      if (StatusCode rsp =? StatusTooManyRequests) && (longBackOffOn429 r >? backoffDuration)
      then longBackOffOn429 r
      else backoffDuration
  | None => backoffDuration
  end.

Definition is2xx (code : Z) : bool := (code >=? 200) && (code <? 300).

Section Engine.

Variable env : Env.
Variable r : RetryRequest.
Variable ctx : Context.
Variable url : string.

(** [r.limiter.Wait(ctx)] of [golang.org/x/time/rate]: refuse a token beyond
    the burst, fail on a context that has ended, refuse a wait beyond the
    deadline, and else wait for the token unless the context ends first. *)
Definition limiter_Wait : M (option error) :=
  emit EvLimiterWait ;;;
  match limiterBurstError env with
  | Some msg => ret (Some (ErrorString msg))
  | None =>
      t <- time_Now ;;
      if ctx_done ctx t then ret (Some (ContextErr (doneErr ctx)))
      else
        match limiterDeadlineError env with
        | Some msg => ret (Some (ErrorString msg))
        | None =>
            if limiterDelay env =? 0 then ret None
            else select_ctx_timer (selectTie env) ctx (limiterDelay env)
        end
  end.

(** [backoff]. *)
Definition backoff (attempt : Z) (lastError : option error) (resp : option Response)
  : M (option error) :=
  let d := backoffDuration r attempt resp in
  emit (EvBackoff d) ;;; select_ctx_timer (selectTie env) ctx d.

(** [createRequestAndGetResponse]; [ph] only labels the log entry.  When the
    request cannot be built the result is [(nil, nil, reqErr)].  The context
    of the request, the caller's context under the timeout of the attempt,
    shows in what the transport answers: an exchange cut short by it fails
    with the error of the context as its cause. *)
Definition createRequestAndGetResponse (ph : Phase) : M Ret :=
  match newRequestErr env url with
  | Some reqErr => ret (None, None, Some reqErr)
  | None =>
      fun w =>
        let k := sent w in
        let ex := transport env k url in
        let t := now w + Z.max 0 (elapsed ex) in
        match result ex with
        | inl rep =>
            (Done (Some {| Body := k; reply := rep |}, Some k, None),
             {| now := t; sent := S k; opened := k :: opened w;
                log := EvDo ph k url :: log w |})
        | inr c =>
            (Done (None, Some k, Some (UrlError "Get" url c)),
             {| now := t; sent := S k; opened := opened w;
                log := EvDo ph k url :: log w |})
        end
  end.

(** [IsNetworkUnavailable] with its effects: the probes run only for an
    error that looks like a network issue. *)
Definition IsNetworkUnavailable_run (err : option error) : M bool :=
  if negb (IsPossibleNetworkOrDNSIssueErr err url) then ret false
  else emit EvProbe ;;; tick (probeElapsed env) ;;;
       ret (isNetworkAvailableCheck (probe env) (arrival env)).

(** [resp.StatusCode] of a possibly nil response. *)
Definition with_status {A} (resp : option Response) (k : Z -> M A) : M A :=
  match resp with
  | Some rsp => k (StatusCode rsp)
  | None => panic
  end.

Definition close_if_any (resp : option Response) : M unit :=
  match resp with
  | Some rsp => Body_Close rsp
  | None => ret tt
  end.

(** The end of an iteration of the recovery loop, after an attempt that
    did not return: release, then give up on an error that is no network
    issue, and go round [again] otherwise. *)
Definition recovery_rest (again : M Ret) (x : Ret) : M Ret :=
  let '(resp, cancel, err) := x in
  call_cancel cancel ;;;
  close_if_any resp ;;;
  match err with
  | Some e =>
      if negb (IsPossibleNetworkOrDNSIssueErr err url) then ret (None, None, Some e)
      else again
  | None => again
  end.

(** One iteration of the [for { ... }] loop entered once the network is
    found unavailable; [start] is [time.Now()] at the entry of the loop and
    [again] the next iteration. *)
Definition recovery_step (start : Z) (again : M Ret) : M Ret :=
  t <- time_Now ;;
  let remainingTime := networkUnavailableMaxWait r - (t - start) in
  if remainingTime <=? 0 then ret (None, None, Some ErrNetworkUnavailableAfterMaxWait)
  else
    let sleepDuration := Z.min remainingTime (networkUnavailableBackOff r) in
    time_Sleep sleepDuration ;;;
    x <- createRequestAndGetResponse Recovery ;;
    let '(resp, cancel, err) := x in
    match err with
    | None =>
        with_status resp (fun code =>
          if (code =? StatusNotFound) && noRetry404 r then
            ret (resp, cancel, Some (StatusCodeError code url ErrNotFound_Message))
          else if (code =? StatusUnprocessableEntity) && noRetry422 r then
            ret (resp, cancel, Some (StatusCodeError code url ErrUnprocessableEntity_Message))
          else if is2xx code then ret (resp, cancel, None)
          else recovery_rest again x)
    | Some _ => recovery_rest again x
    end.

Fixpoint recoveryLoop (fuel : nat) (start : Z) : M Ret :=
  match fuel with
  | O => diverge
  | S fuel' => recovery_step start (recoveryLoop fuel' start)
  end.

(** The end of an iteration of the main loop at index [i], after an attempt
    that did not return: release, stop on a canceled context, and then
    either probe the network (last iteration, with a network retry policy)
    or back off.  [recover] is the recovery loop, given its start time, and
    [next] the rest of the iterations, given the variable [err] as this
    iteration leaves it. *)
Definition main_rest (recover : Z -> M Ret) (next : option error -> M Ret) (i : Z)
    (x : Ret) : M Ret :=
  let '(resp, cancel, err) := x in
  (match err with
   | Some _ => call_cancel cancel
   | None =>
       with_status resp (fun code =>
         if (code <? 200) || (code >=? 300) then call_cancel cancel else ret tt)
   end) ;;;
  close_if_any resp ;;;
  if errors_Is_ctx err Canceled || errors_Is_ctx err DeadlineExceeded then
    ret (None, None, Some (ContextErr Canceled))
  else if resolveNetworkUnavailable r && (i =? maxRetries r - 1) then
    unavailable <- IsNetworkUnavailable_run err ;;
    if unavailable then
      start <- time_Now ;;
      recover start
    else next err
  else
    berr <- backoff i err resp ;;
    match berr with
    | Some e => ret (None, None, Some e)
    | None => next err
    end.

(** The body of the [for i := 0; i < r.maxRetries; i++] loop at index
    [i]. *)
Definition main_step (recover : Z -> M Ret) (next : option error -> M Ret) (i : Z) : M Ret :=
  x <- createRequestAndGetResponse MainLoop ;;
  let '(resp, cancel, err) := x in
  match err with
  | None =>
      with_status resp (fun code =>
        if (code =? StatusNotFound) && noRetry404 r then
          ret (resp, cancel, Some (Wrapf EmptyString (Some ErrNotFoundNoRetry) (": " ++ url)))
        else if is2xx code then ret (resp, cancel, None)
        else main_rest recover next i x)
  | Some _ => main_rest recover next i x
  end.

(** The loop itself: [n] iterations are left, [i] is the index of the next
    one and [err] the variable [err] as the previous iteration left it.
    After the last one the function returns the error of exhaustion. *)
Fixpoint mainLoop (fuel : nat) (n : nat) (i : Z) (err : option error) : M Ret :=
  match n with
  | O => ret (None, None, Some (Wrapf "max retries reached: last error: " err EmptyString))
  | S n' => main_step (recoveryLoop fuel) (mainLoop fuel n' (i + 1)) i
  end.

(** [GetResponse]; [fuel] bounds the iterations of the recovery loop. *)
Definition GetResponse (fuel : nat) : M Ret :=
  emit (EvGetResponse url) ;;;
  lerr <- (if isRateLimited r then limiter_Wait else ret None) ;;
  match lerr with
  | Some e => ret (None, None, Some e)
  | None => mainLoop fuel (Z.to_nat (maxRetries r)) 0 None
  end.

End Engine.

(** ** sec_request.go: fetching contents *)

(** [io.ReadAll]. *)
Definition io_ReadAll (b : BodyData) : string * option error := (bytes b, readErr b).

Section Contents.

Variable env : Env.
Variable r : RetryRequest.
Variable ctx : Context.
Variable url : string.

(** The part of [attemptFetchContents] that reads the body: gzip first,
    then the charset reader for text, json and xml. *)
Definition decodeBody (rep : Reply) : string * option error :=
  let body := payload rep in
  let decoded (reader : BodyData) : string * option error :=
    let contentType := ContentType rep in
    if strings.HasPrefix contentType "text/"
       || strings.Contains contentType "json"
       || strings.Contains contentType "xml"
    then match charset_NewReader env reader contentType with
         | inl e => (EmptyString, Some e)
         | inr decodedReader => io_ReadAll decodedReader
         end
    else io_ReadAll reader in
  if String.eqb (ContentEncoding rep) "gzip" then
    match gzip_NewReader env body with
    | inl gzipReaderError => (EmptyString, Some gzipReaderError)
    | inr gzipReader => decoded gzipReader
    end
  else decoded body.

(** [if cancel != nil { defer cancel() }], run at the return. *)
Definition deferred_cancel (cancel : option nat) : M unit :=
  match cancel with
  | Some k => emit (EvCancel k)
  | None => ret tt
  end.

(** [attemptFetchContents]. *)
Definition attemptFetchContents (fuel : nat) : M (string * option error) :=
  x <- GetResponse env r ctx url fuel ;;
  let '(resp, cancel, err) := x in
  match err with
  | Some e =>
      deferred_cancel cancel ;;;
      ret (EmptyString,
           Some (Wrapf ("failed to get a response for the URL " ++ url ++ ": ") (Some e) EmptyString))
  | None =>
      match resp with
      | None =>
          deferred_cancel cancel ;;;
          ret (EmptyString,
               Some (ErrorString ("failed to get a response (nil) for the URL " ++ url)))
      | Some rsp =>
          let out := decodeBody (reply rsp) in
          Body_Close rsp ;;;
          deferred_cancel cancel ;;;
          ret out
      end
  end.

(** The loop of [fetchContentsAsBytes]: [n] iterations left, [attempt] the
    index of the next one, [err] the last error. *)
Fixpoint fetchLoop (fuel : nat) (n : nat) (attempt : Z) (err : option error)
  : M (string * option error) :=
  match n with
  | O => ret (EmptyString, Some (Wrapf "max retries reached: last error: " err EmptyString))
  | S n' =>
      x <- attemptFetchContents fuel ;;
      let '(bodyBytes, err) := x in
      match err with
      | None => ret (bodyBytes, None)
      | Some e =>
          if strings.Contains (Error e) "stream error" then
            berr <- backoff env r ctx attempt err None ;;
            match berr with
            | Some e' => ret (EmptyString, Some e')
            | None => fetchLoop fuel n' (attempt + 1) err
            end
          else ret (EmptyString, Some e)
      end
  end.

Definition fetchContentsAsBytes (fuel : nat) : M (string * option error) :=
  fetchLoop fuel (Z.to_nat (maxRetries r)) 0 None.

End Contents.

(** [GetContentsAsBytesWithContext]. *)
Definition GetContentsAsBytesWithContext (env : Env) (r : RetryRequest) (ctx : Context)
    (url : string) (fuel : nat) : M (string * option error) :=
  x <- fetchContentsAsBytes env r ctx url fuel ;;
  let '(bodyBytes, err) := x in
  match err with
  | Some e => ret (EmptyString, Some e)
  | None => ret (bodyBytes, None)
  end.

(** [GetContentsAsBytes] and [GetContents]: the same under
    [context.Background()]. *)
Definition GetContentsAsBytes (env : Env) (r : RetryRequest) (url : string) (fuel : nat)
  : M (string * option error) :=
  x <- fetchContentsAsBytes env r Background url fuel ;;
  let '(bodyBytes, err) := x in
  match err with
  | Some e => ret (EmptyString, Some e)
  | None => ret (bodyBytes, None)
  end.

Definition GetContents (env : Env) (r : RetryRequest) (url : string) (fuel : nat)
  : M (string * option error) :=
  x <- fetchContentsAsBytes env r Background url fuel ;;
  let '(bodyBytes, err) := x in
  match err with
  | Some e => ret (EmptyString, Some e)
  | None => ret (bodyBytes, None)
  end.

(** ** The redirect chaser (RedirectedRequest) *)

Definition newline : ascii := Ascii.ascii_of_nat 10.

(** The tail [(.+?)term] of both patterns, matched at the start of [s]: the
    shortest non-empty run of characters other than a newline that is
    followed by [term].  [upto term s] is such a run that may be empty. *)
Fixpoint upto (term s : string) : option string :=
  if String.prefix term s then Some EmptyString
  else match s with
       | EmptyString => None
       | String a rest =>
           if Ascii.eqb a newline then None
           else option_map (String a) (upto term rest)
       end.

Definition lazy_group (term s : string) : option string :=
  match s with
  | EmptyString => None
  | String a rest =>
      if Ascii.eqb a newline then None
      else option_map (String a) (upto term rest)
  end.

Fixpoint drop (n : nat) (s : string) : string :=
  match n, s with
  | S n', String _ rest => drop n' rest
  | _, _ => s
  end.

(** [re.FindStringSubmatch(content)] for the pattern [lit(.+?)term], [lit]
    and [term] literal: the group of the leftmost match. *)
Fixpoint FindStringSubmatch (lit term content : string) : option string :=
  match (if String.prefix lit content
         then lazy_group term (drop (String.length lit) content)
         else None) with
  | Some g => Some g
  | None =>
      match content with
      | EmptyString => None
      | String _ rest => FindStringSubmatch lit term rest
      end
  end.

(** The literal parts of [content="0;URL=(.+?)"] and of
    [location\.replace\("(.+?)"\)]. *)
Definition meta_lit : string := "content=" ++ dquote ++ "0;URL=".
Definition meta_term : string := dquote.
Definition js_lit : string := "location.replace(" ++ dquote.
Definition js_term : string := dquote ++ ")".

Definition extractJavaScriptRedirect (content : string) : string * bool :=
  match FindStringSubmatch meta_lit meta_term content with
  | Some m => (strings.Trim m (Ascii.ascii_of_nat 34), true)
  | None =>
      match FindStringSubmatch js_lit js_term content with
      | Some m => (strings.Trim m (Ascii.ascii_of_nat 34), true)
      | None => (EmptyString, false)
      end
  end.

Section Redirect.

Variable env : Env.
Variable retryRequest : RetryRequest.
Variable ctx : Context.

(** [url.Parse]: it fails on the strings on which building the request
    fails. *)
Definition url_Parse (urlStr : string) : option error := newRequestErr env urlStr.

(** What the fetch returns: body, final url ([url.URL{}] is the empty
    string) and error. *)
Definition Fetched : Type := string * string * option error.

(** [getContentsAsBytesWithContextAndFinalURL]; [depth] bounds the nesting
    of the recursive calls.  The deferred [cancel] and [Body.Close] of a
    call run when it returns, after the nested call. *)
Fixpoint getContentsAsBytesWithContextAndFinalURL (depth fuel : nat)
    (urlStr : string) (checkForJavaRedirect : bool) : M Fetched :=
  match depth with
  | O => diverge
  | S depth' =>
      match url_Parse urlStr with
      | Some e =>
          ret (EmptyString, EmptyString,
               Some (Wrapf ("failed to parse input URL " ++ urlStr ++ ": ") (Some e) EmptyString))
      | None =>
          x <- GetResponse env retryRequest ctx urlStr fuel ;;
          let '(resp, cancel, err) := x in
          match err with
          | Some e =>
              deferred_cancel cancel ;;;
              ret (EmptyString, urlStr,
                   Some (Wrapf ("failed to get a response for the URL " ++ urlStr ++ ": ")
                               (Some e) EmptyString))
          | None =>
              match resp with
              | None =>
                  deferred_cancel cancel ;;;
                  ret (EmptyString, urlStr,
                       Some (ErrorString
                               ("failed to get a response (nil) for the URL " ++ urlStr)))
              | Some rsp =>
                  let at_return (out : Fetched) : M Fetched :=
                    Body_Close rsp ;;; deferred_cancel cancel ;;; ret out in
                  let '(bodyBytes, rerr) := io_ReadAll (payload (reply rsp)) in
                  match rerr with
                  | Some e =>
                      at_return (EmptyString, EmptyString,
                                 Some (Wrapf "failed to read response body: " (Some e) EmptyString))
                  | None =>
                      let '(finalURLStr, found) := extractJavaScriptRedirect bodyBytes in
                      if checkForJavaRedirect && found then
                        out <- getContentsAsBytesWithContextAndFinalURL depth' fuel
                                 finalURLStr false ;;
                        at_return out
                      else at_return (bodyBytes, RequestURL (reply rsp), None)
                  end
              end
          end
      end
  end.

(** [GetContentsAsBytesWithContextAndFinalURL]. *)
Definition GetContentsAsBytesWithContextAndFinalURL (depth fuel : nat) (urlStr : string)
  : M Fetched :=
  getContentsAsBytesWithContextAndFinalURL depth fuel urlStr true.

End Redirect.

(** ** jsonl_stream_fetcher.go *)

Record StartMessage := {
  start_Type : string;
  ProcessingStartTime : string;
  AudioURL : option string;
  FileFormatVersion : string
}.

Record EndMessage := {
  end_Type : string;
  ProcessingEndTime : string;
  Code : Z;
  SystemReason : string;
  UserReason : string
}.

Record JSONLStreamFetcher := {
  PollInterval : Z;
  URL : string;
  f_StartMessage : option StartMessage;
  f_EndMessage : option EndMessage
}.

(** [NewJSONLStreamFetcher(url)] with no option. *)
Definition NewJSONLStreamFetcher (url : string) : JSONLStreamFetcher :=
  {| PollInterval := Second; URL := url; f_StartMessage := None; f_EndMessage := None |}.

Definition WithPollInterval (interval : Z) (f : JSONLStreamFetcher) : JSONLStreamFetcher :=
  {| PollInterval := interval; URL := URL f;
     f_StartMessage := f_StartMessage f; f_EndMessage := f_EndMessage f |}.

(** [bufio.Scanner] with [bufio.ScanLines]. *)
Module bufio.

Definition MaxScanTokenSize : Z := 65536.

(** The lines of [s], without their terminators; a last line needs none. *)
Fixpoint lines_of (s : string) : list string :=
  match s with
  | EmptyString => []
  | String a rest =>
      if Ascii.eqb a newline then EmptyString :: lines_of rest
      else match lines_of rest with
           | [] => [String a EmptyString]
           | l :: ls => String a l :: ls
           end
  end.

(** Drop one trailing carriage return. *)
Fixpoint dropCR (s : string) : string :=
  match s with
  | EmptyString => EmptyString
  | String a EmptyString => if Ascii.eqb a (Ascii.ascii_of_nat 13) then EmptyString else s
  | String a rest => String a (dropCR rest)
  end.

(** The tokens [Scan] delivers and what [Err] is afterwards: a line that
    does not fit the buffer stops the scan, a read error of the body shows
    once the data read is used up. *)
Fixpoint tokens (raw : list string) (rerr : option error) : list string * option error :=
  match raw with
  | [] => ([], rerr)
  | l :: rest =>
      if MaxScanTokenSize <=? Z.of_nat (String.length l)
      then ([], Some (ErrorString "bufio.Scanner: token too long"))
      else let '(ls, e) := tokens rest rerr in (dropCR l :: ls, e)
  end.

Definition scan (b : BodyData) : list string * option error :=
  tokens (lines_of (bytes b)) (readErr b).

End bufio.

Definition start_prefix : string := "{" ++ dquote ++ "type" ++ dquote ++ ":" ++ dquote ++ "start" ++ dquote.
Definition end_prefix : string := "{" ++ dquote ++ "type" ++ dquote ++ ":" ++ dquote ++ "end" ++ dquote.

Section Stream.

Variable env : Env.
Variable ctx : Context.

(** [json.Unmarshal] into a [StartMessage] and into an [EndMessage];
    [None] is a parse error. *)
Variable json_StartMessage : string -> option StartMessage.
Variable json_EndMessage : string -> option EndMessage.

Definition set_StartMessage (m : StartMessage) (f : JSONLStreamFetcher) : JSONLStreamFetcher :=
  {| PollInterval := PollInterval f; URL := URL f;
     f_StartMessage := Some m; f_EndMessage := f_EndMessage f |}.

Definition set_EndMessage (m : EndMessage) (f : JSONLStreamFetcher) : JSONLStreamFetcher :=
  {| PollInterval := PollInterval f; URL := URL f;
     f_StartMessage := f_StartMessage f; f_EndMessage := Some m |}.

(** The [for scanner.Scan()] loop over the lines of a 206 body.  The
    boolean tells that the end message was seen and the goroutine
    returns. *)
Fixpoint scanLoop (lines : list string) (f : JSONLStreamFetcher)
  : M (JSONLStreamFetcher * bool) :=
  match lines with
  | [] => ret (f, false)
  | line :: rest =>
      emit (EvSend line) ;;;
      let f1 :=
        if strings.HasPrefix line start_prefix then
          match json_StartMessage line with
          | Some startMsg => set_StartMessage startMsg f
          | None => f
          end
        else f in
      if strings.HasPrefix line end_prefix then
        match json_EndMessage line with
        | Some endMsg =>
            if String.eqb (end_Type endMsg) "end"
            then ret (set_EndMessage endMsg f1, true)
            else scanLoop rest f1
        | None => scanLoop rest f1
        end
      else scanLoop rest f1
  end.

(** The deferred [Body.Close] calls, latest first. *)
Fixpoint run_defers (defers : list Response) : M unit :=
  match defers with
  | [] => ret tt
  | resp :: rest => Body_Close resp ;;; run_defers rest
  end.

(** [f.HttpClient.Do(req)] of a poll; the Range header is set once the
    cursor is positive. *)
Definition stream_Do (f : JSONLStreamFetcher) (lastBytePosition : Z)
  : M (Response + error) :=
  fun w =>
    let k := sent w in
    let ex := transport env k (URL f) in
    let range := if lastBytePosition >? 0 then Some lastBytePosition else None in
    let t := now w + Z.max 0 (elapsed ex) in
    match result ex with
    | inl rep =>
        (Done (inl {| Body := k; reply := rep |}),
         {| now := t; sent := S k; opened := k :: opened w;
            log := EvStreamGet k range :: log w |})
    | inr c =>
        (Done (inr (UrlError "Get" (URL f) c)),
         {| now := t; sent := S k; opened := opened w;
            log := EvStreamGet k range :: log w |})
    end.

(** The goroutine of [FetchJSONLStream]: its [for] loop, run for at most
    [fuel] polls.  It returns the fetcher and the cursor as they are when
    the goroutine ends. *)
Fixpoint pollLoop (fuel : nat) (f : JSONLStreamFetcher) (lastBytePosition : Z)
    (defers : list Response) : M (JSONLStreamFetcher * Z) :=
  match fuel with
  | O => diverge
  | S fuel' =>
      match newRequestErr env (URL f) with
      | Some _ => run_defers defers ;;; ret (f, lastBytePosition)
      | None =>
          x <- stream_Do f lastBytePosition ;;
          match x with
          | inr _ => run_defers defers ;;; ret (f, lastBytePosition)
          | inl resp =>
              let defers := resp :: defers in
              let rep := reply resp in
              if status rep =? StatusPartialContent then
                let '(lines, serr) := bufio.scan (payload rep) in
                y <- scanLoop lines f ;;
                let '(f, ended) := y in
                if ended then run_defers defers ;;; ret (f, lastBytePosition)
                else
                  match serr with
                  | Some _ => run_defers defers ;;; ret (f, lastBytePosition)
                  | None =>
                      let lastBytePosition := ContentLength rep in
                      sel <- select_ctx_timer (selectTie env) ctx (PollInterval f) ;;
                      match sel with
                      | Some _ => run_defers defers ;;; ret (f, lastBytePosition)
                      | None => pollLoop fuel' f lastBytePosition defers
                      end
                  end
              else if status rep =? StatusOK then
                let '(body, rerr) := io_ReadAll (payload rep) in
                match rerr with
                | Some _ => run_defers defers ;;; ret (f, lastBytePosition)
                | None =>
                    emit (EvSend body) ;;;
                    run_defers defers ;;; ret (f, lastBytePosition)
                end
              else run_defers defers ;;; ret (f, lastBytePosition)
          end
      end
  end.

(** [FetchJSONLStream]: the cursor starts at zero. *)
Definition FetchJSONLStream (fuel : nat) (f : JSONLStreamFetcher)
  : M (JSONLStreamFetcher * Z) :=
  pollLoop fuel f 0 [].

End Stream.

(** The Range offsets of the polls of a run, in the order sent: the cursor
    as the server sees it. *)
Fixpoint ranges_sent_rev (l : list Event) : list (option Z) :=
  match l with
  | [] => []
  | EvStreamGet _ range :: rest => range :: ranges_sent_rev rest
  | _ :: rest => ranges_sent_rev rest
  end.

Definition ranges_sent (w : World) : list (option Z) := rev (ranges_sent_rev (log w)).

(** ** Observations on a run *)

Definition is_main_attempt (e : Event) : bool :=
  match e with EvDo MainLoop _ _ => true | _ => false end.

Definition is_recovery_attempt (e : Event) : bool :=
  match e with EvDo Recovery _ _ => true | _ => false end.

Definition is_GetResponse (e : Event) : bool :=
  match e with EvGetResponse _ => true | _ => false end.

Definition count (p : Event -> bool) (l : list Event) : nat := List.length (filter p l).

(** HTTP attempts issued by the main retry loop, by the recovery loop, and
    calls of [GetResponse], in the run that led to [w]. *)
Definition main_attempts (w : World) : nat := count is_main_attempt (log w).
Definition recovery_attempts (w : World) : nat := count is_recovery_attempt (log w).
Definition GetResponse_calls (w : World) : nat := count is_GetResponse (log w).

(** The urls [GetResponse] was called with, in order. *)
Fixpoint fetched_rev (l : list Event) : list string :=
  match l with
  | [] => []
  | EvGetResponse u :: rest => u :: fetched_rev rest
  | _ :: rest => fetched_rev rest
  end.

Definition fetched (w : World) : list string := rev (fetched_rev (log w)).

(** The body of exchange [k] was closed at some point of the run. *)
Definition closed (k : nat) (w : World) : Prop := In (EvClose k) (log w).

(** The errors with which [GetResponse] gives up by policy: the wrapped
    [ErrNotFoundNoRetry] and the status errors for 404 and 422. *)
Definition policy_suppressed (e : error) : bool :=
  match e with
  | Wrapf _ (Some ErrNotFoundNoRetry) _ => true
  | StatusCodeError _ _ _ => true
  | _ => false
  end.

(** What a computation establishes when it returns. *)
Definition returns {A} (m : M A) (Q : A -> World -> Prop) : Prop :=
  forall w a w', m w = (Done a, w') -> Q a w'.

(** What [createRequestAndGetResponse] hands back for [url]: a response
    with its cancel function, the body open; or the failure of the transport
    with a cancel function; or the failure to build the request, without
    one. *)
Definition fresh_result (url : string) (x : Ret) (w : World) : Prop :=
  match x with
  | (Some rsp, Some k, None) => k = Body rsp /\ In k (opened w)
  | (None, Some _, Some e) => exists ca, e = UrlError "Get" url ca
  | (None, None, Some _) => True
  | _ => False
  end.

(** The variable [err] of the main loop holds nil or an error of the
    transport. *)
Definition transport_err (url : string) (err : option error) : Prop :=
  err = None \/ exists ca, err = Some (UrlError "Get" url ca).

(** The attempts the recovery loop can still make with [R] of its wait
    left and a sleep of [b] between them. *)
Definition attempts_left (R b : Z) : nat := Z.to_nat ((R + b - 1) / b).

(** A computation does not run out of fuel. *)
Definition safe {A} (m : M A) : Prop := forall w, fst (m w) <> OutOfFuel.

(** The return statements of [GetResponse], with what holds at each: the
    success and the 404 that is not retried, from the main loop; the error of
    the limiter; the cancellation seen by an attempt and the one seen by
    [backoff]; the exhaustion of the attempts, around the last error of the
    transport if any; and from the recovery loop the success, the two status
    errors, the end of the wait and the error that is no network issue.  A
    response that is returned has its body open. *)
Inductive returned (r : RetryRequest) (ctx : Context) (url : string) : Ret -> World -> Prop :=
| ret_2xx (rsp : Response) (w : World) :
    is2xx (StatusCode rsp) = true -> In (Body rsp) (opened w) ->
    returned r ctx url (Some rsp, Some (Body rsp), None) w
| ret_404_no_retry (rsp : Response) (w : World) :
    noRetry404 r = true -> StatusCode rsp = 404 -> In (Body rsp) (opened w) ->
    returned r ctx url
      (Some rsp, Some (Body rsp),
       Some (Wrapf EmptyString (Some ErrNotFoundNoRetry) (": " ++ url))) w
| ret_limiter (e : error) (w : World) :
    isRateLimited r = true ->
    e = ContextErr (doneErr ctx) \/ (exists msg, e = ErrorString msg) ->
    returned r ctx url (None, None, Some e) w
| ret_canceled (w : World) :
    returned r ctx url (None, None, Some (ContextErr Canceled)) w
| ret_backoff_canceled (w : World) :
    returned r ctx url (None, None, Some (ContextErr (doneErr ctx))) w
| ret_exhausted (c : option error) (w : World) :
    c = None \/ (exists ca, c = Some (UrlError "Get" url ca)) ->
    returned r ctx url
      (None, None, Some (Wrapf "max retries reached: last error: " c EmptyString)) w
| ret_recovery_timeout (w : World) :
    resolveNetworkUnavailable r = true ->
    returned r ctx url (None, None, Some ErrNetworkUnavailableAfterMaxWait) w
| ret_recovery_404 (rsp : Response) (w : World) :
    resolveNetworkUnavailable r = true ->
    noRetry404 r = true -> StatusCode rsp = 404 -> In (Body rsp) (opened w) ->
    returned r ctx url
      (Some rsp, Some (Body rsp), Some (StatusCodeError 404 url ErrNotFound_Message)) w
| ret_recovery_422 (rsp : Response) (w : World) :
    resolveNetworkUnavailable r = true ->
    noRetry422 r = true -> StatusCode rsp = 422 -> In (Body rsp) (opened w) ->
    returned r ctx url
      (Some rsp, Some (Body rsp),
       Some (StatusCodeError 422 url ErrUnprocessableEntity_Message)) w
| ret_recovery_error (ca : cause) (w : World) :
    resolveNetworkUnavailable r = true ->
    IsPossibleNetworkOrDNSIssueErr (Some (UrlError "Get" url ca)) url = false ->
    returned r ctx url (None, None, Some (UrlError "Get" url ca)) w.

(** A computation adds at most [k] events of the kind [p] to the log, and
    it adds none. *)
Definition adds_le {A} (p : Event -> bool) (k : nat) (m : M A) : Prop :=
  forall w, (count p (log (snd (m w))) <= count p (log w) + k)%nat.

Definition keeps {A} (p : Event -> bool) (m : M A) : Prop :=
  forall w, count p (log (snd (m w))) = count p (log w).

(** ** Scenarios *)

Definition plain_reply (code : Z) (body : string) (len : Z) (u : string) : Reply :=
  {| status := code; ContentEncoding := EmptyString; ContentType := "text/html";
     ContentLength := len; RequestURL := u;
     payload := {| bytes := body; readErr := None |} |}.

Definition answers (rep : Reply) : Exchange := {| result := inl rep; elapsed := 0 |}.
Definition fails (c : cause) : Exchange := {| result := inr c; elapsed := 0 |}.

(** An environment around a transport: every url parses, the limiter lets
    through at once, the probes answer [up], nothing needs decoding. *)
Definition env_of (tr : nat -> string -> Exchange) (up : bool) : Env :=
  {| transport := tr;
     newRequestErr := fun _ => None;
     limiterBurstError := None;
     limiterDeadlineError := None;
     limiterDelay := 0;
     probe := fun _ => up;
     arrival := probe_urls;
     probeElapsed := 0;
     selectTie := true;
     gzip_NewReader := fun b => inr b;
     charset_NewReader := fun b _ => inr b |}.

(** The replies of a server that answers the [k]-th exchange with the
    [k]-th status of [codes], and with 500 afterwards. *)
Definition by_status (codes : list Z) : nat -> string -> Exchange :=
  fun k u => answers (plain_reply (nth k codes 500) "body" 4 u).

Definition dial_timeout : cause := CauseNet "dial tcp 93.184.216.34:443: i/o timeout".

Definition url_a : string := "http://a/x".

(** [GetTwitterShortURLFetcher]: the configuration of its [RetryRequest]. *)
Definition TwitterShortURLFetcher : RetryRequest :=
  WithLongBackOffOn429 (1 * Minute)
    (WithNoRetry422 (WithNoRetry404 (WithAttemptsAndBackoff 3 (5 * Second) NewRetryRequest))).

(** A request with one attempt and the default network retry policy. *)
Definition one_attempt_robust : RetryRequest :=
  WithNetworkRetryPolicy DefaultNetworkUnavailableBackOff DefaultNetworkUnavailableMaxWait
    (WithAttemptsAndBackoff 1 (3 * Second) NewRetryRequest).

(** The first exchange times out on dial, the second is answered with 200. *)
Definition outage_then_ok : nat -> string -> Exchange :=
  fun k u => match k with
             | O => fails dial_timeout
             | _ => answers (plain_reply 200 "body" 4 u)
             end.

(** The first exchange times out on dial; by the second the context has
    ended. *)
Definition outage_then_canceled : nat -> string -> Exchange :=
  fun k u => match k with
             | O => fails dial_timeout
             | _ => fails (CauseCtx Canceled)
             end.

(** A context canceled one second after the start. *)
Definition canceled_after_1s : Context := {| doneAt := Some (1 * Second); doneErr := Canceled |}.

(** The body of the first reply breaks while it is read, the second
    exchange is answered with 500, the third with 200. *)
Definition stream_error_once : nat -> string -> Exchange :=
  fun k u => match k with
             | O => answers {| status := 200; ContentEncoding := EmptyString;
                               ContentType := "text/html"; ContentLength := 4; RequestURL := u;
                               payload := {| bytes := "bo";
                                             readErr := Some (ErrorString
                                               "stream error: stream ID 1; INTERNAL_ERROR") |} |}
             | 1%nat => answers (plain_reply 500 "oops" 4 u)
             | _ => answers (plain_reply 200 "body" 4 u)
             end.

Definition two_attempts : RetryRequest := WithAttemptsAndBackoff 2 (1 * Second) NewRetryRequest.

(** Two pages that redirect to each other by meta refresh. *)
Definition url_b : string := "http://b/y".
Definition page_to (target : string) : string :=
  "<meta http-equiv=" ++ dquote ++ "refresh" ++ dquote ++ " content=" ++ dquote
    ++ "0;URL=" ++ target ++ dquote ++ ">".
Definition ping_pong : nat -> string -> Exchange :=
  fun k u =>
    if String.eqb u url_a then answers (plain_reply 200 (page_to url_b) 0 u)
    else answers (plain_reply 200 (page_to url_a) 0 u).

(** A server that answers a poll with 206 and the length of the part it
    sends: 100 bytes first, then 20 more, then nothing new. *)
Definition part (n : nat) : string := String.concat EmptyString (repeat "x" n).
Definition growing_stream : nat -> string -> Exchange :=
  fun k u => match k with
             | O => answers (plain_reply 206 (part 100) 100 u)
             | 1%nat => answers (plain_reply 206 (part 20) 20 u)
             | 2%nat => answers (plain_reply 206 EmptyString 0 u)
             | _ => answers (plain_reply 404 EmptyString 0 u)
             end.

Definition no_json_start (line : string) : option StartMessage := None.
Definition no_json_end (line : string) : option EndMessage := None.

(** * Properties *)

(** ** Machine arithmetic *)



Lemma attempts_left_0 (R b : Z) : 0 < b -> R <= 0 -> attempts_left R b = 0%nat.
Proof.
  intros Hb HR. unfold attempts_left.
  assert ((R + b - 1) / b <= 0); [|lia].
  assert ((R + b - 1) / b < 1); [|lia].
  apply Z.div_lt_upper_bound; lia.
Qed.

Lemma attempts_left_step (R R' b : Z) :
  0 < b -> 0 < R -> R' <= R - Z.min R b ->
  (S (attempts_left R' b) <= attempts_left R b)%nat.
Proof.
  intros Hb HR HR'. unfold attempts_left.
  assert (H1 : 1 <= (R + b - 1) / b) by (apply Z.div_le_lower_bound; lia).
  destruct (Z.le_gt_cases R' 0) as [Hle|Hgt].
  - pose proof (attempts_left_0 R' b Hb Hle) as H0. unfold attempts_left in H0.
    rewrite H0. lia.
  - assert (Hm : Z.min R b = b) by lia. rewrite Hm in HR'.
    assert (H2 : (R' + b - 1) / b + 1 <= (R + b - 1) / b).
    { replace ((R' + b - 1) / b + 1) with ((R' + b - 1 + 1 * b) / b)
        by (rewrite Z.div_add; lia).
      apply Z.div_le_mono; lia. }
    assert (H3 : 0 <= (R' + b - 1) / b) by (apply Z.div_pos; lia).
    lia.
Qed.

(** ** Computations *)

Ltac break_match :=
  match goal with
  | |- context [match ?x with _ => _ end] => destruct x eqn:?
  end.

Ltac break_if :=
  match goal with
  | |- context [if ?c then _ else _] => destruct c eqn:?
  end.

Lemma bind_Done {A B} (m : M A) (f : A -> M B) (w : World) (b : B) (w' : World) :
  bind m f w = (Done b, w') -> exists a w1, m w = (Done a, w1) /\ f a w1 = (Done b, w').
Proof.
  unfold bind. destruct (m w) as [[a| |] w1]; intros H; try discriminate.
  exists a, w1. split; [reflexivity | exact H].
Qed.

Lemma bind_step {A B} (m : M A) (f : A -> M B) (w w1 : World) (a : A) :
  m w = (Done a, w1) -> bind m f w = f a w1.
Proof. intros H. unfold bind. rewrite H. reflexivity. Qed.

Lemma bind_ext {A B} (m : M A) (f g : A -> M B) (w : World) :
  (forall a w1, f a w1 = g a w1) -> bind m f w = bind m g w.
Proof. intros H. unfold bind. destruct (m w) as [[a| |] w1]; auto. Qed.

Lemma bind_cong_l {A B} (m m' : M A) (f : A -> M B) (w : World) :
  m w = m' w -> bind m f w = bind m' f w.
Proof. intros H. unfold bind. rewrite H. reflexivity. Qed.

Lemma returns_bind {A B} (m : M A) (f : A -> M B) (Q1 : A -> World -> Prop)
    (Q : B -> World -> Prop) :
  returns m Q1 ->
  (forall a w1, Q1 a w1 -> forall b w', f a w1 = (Done b, w') -> Q b w') ->
  returns (bind m f) Q.
Proof.
  intros Hm Hf w b w' H. apply bind_Done in H. destruct H as [a [w1 [H1 H2]]].
  eapply Hf; [eapply Hm; exact H1 | exact H2].
Qed.

Lemma snd_bind_ret {A B} (m : M A) (f : A -> B) (w : World) :
  snd (bind m (fun a => ret (f a)) w) = snd (m w).
Proof. unfold bind, ret. destruct (m w) as [[a| |] w1]; reflexivity. Qed.

(** ** The outage probe *)

Lemma drain_responses_true (l : list bool) : drain_responses l = true <-> In true l.
Proof.
  induction l as [|b l IH]; simpl.
  - split; [discriminate | tauto].
  - destruct b; [tauto|]. rewrite IH. split; [tauto|]. intros [H|H]; [discriminate|exact H].
Qed.

(** The probe reports "available" exactly when some probe request
    succeeded, whatever the order in which the results arrive. *)
Lemma isNetworkAvailableCheck_true (probe : string -> bool) (arrival : list string) :
  isNetworkAvailableCheck probe arrival = true <-> exists u, In u arrival /\ probe u = true.
Proof.
  unfold isNetworkAvailableCheck. rewrite drain_responses_true, in_map_iff.
  split; intros [u [H1 H2]]; exists u; tauto.
Qed.

Lemma isNetworkAvailableCheck_order (probe : string -> bool) (a1 a2 : list string) :
  Permutation a1 a2 -> isNetworkAvailableCheck probe a1 = isNetworkAvailableCheck probe a2.
Proof.
  intros P.
  destruct (isNetworkAvailableCheck probe a1) eqn:E1, (isNetworkAvailableCheck probe a2) eqn:E2;
    try reflexivity.
  - apply isNetworkAvailableCheck_true in E1. destruct E1 as [u [Hin Hu]].
    assert (isNetworkAvailableCheck probe a2 = true) as E
      by (apply isNetworkAvailableCheck_true; exists u; split;
          [eapply Permutation_in; eassumption | exact Hu]).
    congruence.
  - apply isNetworkAvailableCheck_true in E2. destruct E2 as [u [Hin Hu]].
    assert (isNetworkAvailableCheck probe a1 = true) as E
      by (apply isNetworkAvailableCheck_true; exists u; split;
          [eapply Permutation_in; [apply Permutation_sym|]; eassumption | exact Hu]).
    congruence.
Qed.

(** What [IsNetworkUnavailable] answers: [true] exactly for an error that
    looks like a network issue while some probe request succeeded. *)
Lemma IsNetworkUnavailable_true (probe : string -> bool) (arrival : list string)
    (err : option error) (url : string) :
  IsNetworkUnavailable probe arrival err url = true <->
  IsPossibleNetworkOrDNSIssueErr err url = true /\ exists u, In u arrival /\ probe u = true.
Proof.
  unfold IsNetworkUnavailable.
  destruct (IsPossibleNetworkOrDNSIssueErr err url); simpl.
  - rewrite isNetworkAvailableCheck_true. tauto.
  - split; [discriminate | intros [H _]; discriminate].
Qed.

Lemma IsNetworkUnavailable_run_true (env : Env) (url : string) (err : option error)
    (w w1 : World) :
  IsNetworkUnavailable_run env url err w = (Done true, w1) ->
  IsNetworkUnavailable (probe env) (arrival env) err url = true.
Proof.
  unfold IsNetworkUnavailable_run, IsNetworkUnavailable.
  destruct (negb _); [intros H; inversion H|].
  unfold bind, emit, tick, ret. intros H. inversion H. reflexivity.
Qed.

(** ** Backoff *)



(** The wait of [backoff] is a timer of that duration: under a context that
    never ends the call returns nil once the duration has passed. *)
Lemma backoff_waits (env : Env) (r : RetryRequest) (i : Z) (err : option error)
    (resp : option Response) (w : World) :
  let d := backoffDuration r i resp in
  backoff env r Background i err resp w =
    (Done None, {| now := now w + Z.max 0 d; sent := sent w; opened := opened w;
                   log := EvBackoff d :: log w |}).
Proof. reflexivity. Qed.

(** With the long backoff of 601s and a factor of 5s, a 429 at attempt 3
    waits 601s and any other failure 40s. *)
Example backoff_601 :
  let r := WithLongBackOffOn429 (601 * Second)
             (WithAttemptsAndBackoff 7 (5 * Second) NewRetryRequest) in
  backoffDuration r 3 (Some {| Body := 3; reply := plain_reply 429 "slow down" 9 url_a |})
    = 601 * Second /\
  backoffDuration r 3 (Some {| Body := 3; reply := plain_reply 503 "busy" 4 url_a |})
    = 40 * Second /\
  backoffDuration r 3 None = 40 * Second.
Proof. vm_compute. repeat split; reflexivity. Qed.

(** A cancellation that comes before the timer of [backoff] fires ends the
    wait at once with the error of the context. *)
Lemma backoff_canceled (env : Env) (r : RetryRequest) (c : Z) (ce : ctxErr) (i : Z)
    (err : option error) (resp : option Response) (w : World) :
  Z.max (now w) c < now w + Z.max 0 (backoffDuration r i resp) ->
  backoff env r {| doneAt := Some c; doneErr := ce |} i err resp w =
    (Done (Some (ContextErr ce)),
     {| now := Z.max (now w) c; sent := sent w; opened := opened w;
        log := EvBackoff (backoffDuration r i resp) :: log w |}).
Proof.
  intros H. unfold backoff, bind, emit, select_ctx_timer. simpl.
  apply Z.ltb_lt in H. rewrite H. reflexivity.
Qed.

(** ** Counting the events of a run *)

Lemma count_cons (p : Event -> bool) (e : Event) (l : list Event) :
  count p (e :: l) = ((if p e then 1 else 0) + count p l)%nat.
Proof. unfold count. simpl. destruct (p e); reflexivity. Qed.

Section Counting.

Variable p : Event -> bool.

Lemma keeps_adds_le {A} (m : M A) (k : nat) : keeps p m -> adds_le p k m.
Proof. intros H w. rewrite (H w). lia. Qed.

Lemma adds_le_weaken {A} (m : M A) (j k : nat) : (j <= k)%nat -> adds_le p j m -> adds_le p k m.
Proof. intros Hjk H w. specialize (H w). lia. Qed.

Lemma keeps_ret {A} (a : A) : keeps p (ret a).
Proof. intros w. reflexivity. Qed.

Lemma keeps_panic {A} : keeps p (@panic A).
Proof. intros w. reflexivity. Qed.

Lemma keeps_diverge {A} : keeps p (@diverge A).
Proof. intros w. reflexivity. Qed.

Lemma keeps_tick (d : Z) : keeps p (tick d).
Proof. intros w. reflexivity. Qed.

Lemma keeps_time_Now : keeps p time_Now.
Proof. intros w. reflexivity. Qed.

Lemma keeps_select (tie : bool) (ctx : Context) (d : Z) : keeps p (select_ctx_timer tie ctx d).
Proof.
  intros w. unfold select_ctx_timer.
  destruct (doneAt ctx); [|reflexivity].
  repeat break_match; reflexivity.
Qed.

Lemma keeps_emit (e : Event) : p e = false -> keeps p (emit e).
Proof. intros H w. unfold emit. simpl. rewrite count_cons, H. reflexivity. Qed.

Lemma adds_le_emit (e : Event) : adds_le p 1 (emit e).
Proof. intros w. unfold emit. simpl. rewrite count_cons. destruct (p e); lia. Qed.

Lemma keeps_Body_Close (resp : Response) :
  p (EvClose (Body resp)) = false -> keeps p (Body_Close resp).
Proof. intros H w. unfold Body_Close. simpl. rewrite count_cons, H. reflexivity. Qed.

Lemma keeps_bind {A B} (m : M A) (f : A -> M B) :
  keeps p m -> (forall a, keeps p (f a)) -> keeps p (bind m f).
Proof.
  intros Hm Hf w. unfold bind. specialize (Hm w).
  destruct (m w) as [[a| |] w1]; simpl in *; try exact Hm.
  rewrite (Hf a w1). exact Hm.
Qed.

Lemma adds_le_bind {A B} (m : M A) (f : A -> M B) (j k : nat) :
  adds_le p j m -> (forall a, adds_le p k (f a)) -> adds_le p (j + k) (bind m f).
Proof.
  intros Hm Hf w. unfold bind. specialize (Hm w).
  destruct (m w) as [[a| |] w1]; simpl in *; try lia.
  specialize (Hf a w1). lia.
Qed.

Lemma adds_le_bind_keeps {A B} (m : M A) (f : A -> M B) (k : nat) :
  keeps p m -> (forall a, adds_le p k (f a)) -> adds_le p k (bind m f).
Proof.
  intros Hm Hf. apply (adds_le_bind m f 0 k); [apply keeps_adds_le; exact Hm | exact Hf].
Qed.

Lemma adds_le_create (env : Env) (url : string) (ph : Phase) :
  adds_le p 1 (createRequestAndGetResponse env url ph).
Proof.
  intros w. unfold createRequestAndGetResponse.
  destruct (newRequestErr env url); [simpl; lia|].
  destruct (result (transport env (sent w) url)); simpl; rewrite count_cons;
    destruct (p _); lia.
Qed.

Lemma keeps_create (env : Env) (url : string) (ph : Phase) :
  (forall k, p (EvDo ph k url) = false) ->
  keeps p (createRequestAndGetResponse env url ph).
Proof.
  intros H w. unfold createRequestAndGetResponse.
  destruct (newRequestErr env url); [reflexivity|].
  destruct (result (transport env (sent w) url)); simpl; rewrite count_cons, H; reflexivity.
Qed.

End Counting.

Lemma recovery_rest_keeps (p : Event -> bool) (url : string) (again : M Ret) (x : Ret) :
  (forall k, p (EvCancel k) = false) ->
  (forall k, p (EvClose k) = false) ->
  keeps p again ->
  keeps p (recovery_rest url again x).
Proof.
  intros H3 H4 Ha. destruct x as [[resp cancel] err]. unfold recovery_rest.
  apply keeps_bind;
    [destruct cancel; simpl; [apply keeps_emit; apply H3 | apply keeps_panic] | intros _].
  apply keeps_bind;
    [destruct resp; simpl; [apply keeps_Body_Close; apply H4 | apply keeps_ret] | intros _].
  destruct err; [destruct (negb _); [apply keeps_ret | exact Ha] | exact Ha].
Qed.

Lemma recovery_step_keeps (p : Event -> bool) (env : Env) (r : RetryRequest) (url : string)
    (start : Z) (again : M Ret) :
  (forall k, p (EvDo Recovery k url) = false) ->
  (forall d, p (EvSleep d) = false) ->
  (forall k, p (EvCancel k) = false) ->
  (forall k, p (EvClose k) = false) ->
  keeps p again ->
  keeps p (recovery_step env r url start again).
Proof.
  intros H1 H2 H3 H4 Ha. unfold recovery_step.
  apply keeps_bind; [apply keeps_time_Now | intro t].
  destruct (_ <=? 0); [apply keeps_ret|].
  apply keeps_bind;
    [unfold time_Sleep; apply keeps_bind;
       [apply keeps_emit; apply H2 | intro; apply keeps_tick] | intros _].
  apply keeps_bind; [apply keeps_create; exact H1 | intros [[resp cancel] err]].
  pose proof (recovery_rest_keeps p url again (resp, cancel, err) H3 H4 Ha) as Hrest.
  destruct err; [exact Hrest|].
  destruct resp; simpl; [|apply keeps_panic].
  repeat (match goal with |- keeps _ (if ?c then _ else _) => destruct c end);
    first [apply keeps_ret | exact Hrest].
Qed.

Lemma recoveryLoop_keeps (p : Event -> bool) (env : Env) (r : RetryRequest) (url : string)
    (fuel : nat) (start : Z) :
  (forall k, p (EvDo Recovery k url) = false) ->
  (forall d, p (EvSleep d) = false) ->
  (forall k, p (EvCancel k) = false) ->
  (forall k, p (EvClose k) = false) ->
  keeps p (recoveryLoop env r url fuel start).
Proof.
  intros H1 H2 H3 H4. induction fuel as [|fuel IH]; simpl.
  - apply keeps_diverge.
  - apply recovery_step_keeps; assumption.
Qed.

Lemma IsNetworkUnavailable_run_keeps (p : Event -> bool) (env : Env) (url : string)
    (err : option error) :
  p EvProbe = false -> keeps p (IsNetworkUnavailable_run env url err).
Proof.
  intros H. unfold IsNetworkUnavailable_run.
  destruct (negb _); [apply keeps_ret|].
  apply keeps_bind; [apply keeps_emit; exact H | intros _].
  apply keeps_bind; [apply keeps_tick | intros _]. apply keeps_ret.
Qed.

Lemma backoff_keeps (p : Event -> bool) (env : Env) (r : RetryRequest) (ctx : Context)
    (i : Z) (err : option error) (resp : option Response) :
  (forall d, p (EvBackoff d) = false) -> keeps p (backoff env r ctx i err resp).
Proof.
  intros H. unfold backoff.
  apply keeps_bind; [apply keeps_emit; apply H | intros _; apply keeps_select].
Qed.

(** The end of an iteration of the main loop adds what the recovery loop,
    entered only when [IsNetworkUnavailable] answers [true], or the rest of
    the loop add. *)
Lemma main_rest_adds (p : Event -> bool) (env : Env) (r : RetryRequest) (ctx : Context)
    (url : string) (recover : Z -> M Ret) (next : option error -> M Ret) (i : Z) (k : nat)
    (x : Ret) :
  (forall d, p (EvBackoff d) = false) ->
  (forall j, p (EvCancel j) = false) ->
  (forall j, p (EvClose j) = false) ->
  p EvProbe = false ->
  (isNetworkAvailableCheck (probe env) (arrival env) = true ->
   adds_le p k (start <- time_Now ;; recover start)) ->
  (forall e, adds_le p k (next e)) ->
  adds_le p k (main_rest env r ctx url recover next i x).
Proof.
  intros H1 H2 H3 H4 Hr Hn. destruct x as [[resp cancel] err]. unfold main_rest.
  assert (Hcancel : keeps p (call_cancel cancel))
    by (destruct cancel; simpl; [apply keeps_emit; apply H2 | apply keeps_panic]).
  assert (Hclose : keeps p (close_if_any resp))
    by (destruct resp; simpl; [apply keeps_Body_Close; apply H3 | apply keeps_ret]).
  apply adds_le_bind_keeps.
  { destruct err; [exact Hcancel|]. destruct resp; simpl; [|apply keeps_panic].
    destruct (_ || _); [exact Hcancel | apply keeps_ret]. }
  intros _. apply adds_le_bind_keeps; [exact Hclose | intros _].
  destruct (_ || _); [apply keeps_adds_le, keeps_ret|].
  destruct (_ && _).
  - intros w. unfold bind at 1.
    pose proof (IsNetworkUnavailable_run_keeps p env url err H4 w) as Hk.
    destruct (IsNetworkUnavailable_run env url err w) as [[un| |] w1] eqn:Hun;
      simpl in Hk |- *; try lia.
    destruct un.
    + apply IsNetworkUnavailable_run_true in Hun.
      apply IsNetworkUnavailable_true in Hun. destruct Hun as [_ Hex].
      apply isNetworkAvailableCheck_true in Hex.
      pose proof (Hr Hex w1) as Hr'. unfold bind, time_Now in Hr' |- *.
      simpl in Hr' |- *. rewrite <- Hk. exact Hr'.
    + rewrite <- Hk. exact (Hn err w1).
  - apply adds_le_bind_keeps; [apply backoff_keeps; exact H1 | intros berr].
    destruct berr; [apply keeps_adds_le, keeps_ret | apply Hn].
Qed.

(** An iteration of the main loop adds its own attempt to that. *)
Lemma main_step_adds (p : Event -> bool) (env : Env) (r : RetryRequest) (ctx : Context)
    (url : string) (recover : Z -> M Ret) (next : option error -> M Ret) (i : Z)
    (j k : nat) :
  adds_le p j (createRequestAndGetResponse env url MainLoop) ->
  (forall d, p (EvBackoff d) = false) ->
  (forall j, p (EvCancel j) = false) ->
  (forall j, p (EvClose j) = false) ->
  p EvProbe = false ->
  (isNetworkAvailableCheck (probe env) (arrival env) = true ->
   adds_le p k (start <- time_Now ;; recover start)) ->
  (forall e, adds_le p k (next e)) ->
  adds_le p (j + k) (main_step env r ctx url recover next i).
Proof.
  intros H0 H1 H2 H3 H4 Hr Hn. unfold main_step.
  apply adds_le_bind; [exact H0 | intros [[resp cancel] err]].
  pose proof (main_rest_adds p env r ctx url recover next i k (resp, cancel, err)
                H1 H2 H3 H4 Hr Hn) as Hrest.
  destruct err; [exact Hrest|].
  destruct resp; simpl; [|apply keeps_adds_le, keeps_panic].
  repeat (match goal with |- adds_le _ _ (if ?c then _ else _) => destruct c end);
    first [apply keeps_adds_le, keeps_ret | exact Hrest].
Qed.

Lemma mainLoop_attempts (env : Env) (r : RetryRequest) (ctx : Context) (url : string)
    (fuel n : nat) (i : Z) (err : option error) :
  adds_le is_main_attempt n (mainLoop env r ctx url fuel n i err).
Proof.
  revert i err. induction n as [|n IH]; intros i err; simpl.
  - apply keeps_adds_le, keeps_ret.
  - apply (main_step_adds is_main_attempt env r ctx url _ _ i 1 n);
      try (intros; reflexivity).
    + apply adds_le_create.
    + intros _. apply keeps_adds_le.
      apply keeps_bind; [apply keeps_time_Now | intros s].
      apply recoveryLoop_keeps; intros; reflexivity.
    + intros e. apply IH.
Qed.

(** The main loop adds at most [k] events of a kind that its own steps do
    not produce, when the recovery loop adds at most [k]: it runs at most
    once. *)
Lemma mainLoop_adds_recovery (p : Event -> bool) (k : nat) (env : Env) (r : RetryRequest)
    (ctx : Context) (url : string) (fuel n : nat) (i : Z) (err : option error) :
  (forall j, p (EvDo MainLoop j url) = false) ->
  (forall d, p (EvBackoff d) = false) ->
  (forall j, p (EvCancel j) = false) ->
  (forall j, p (EvClose j) = false) ->
  p EvProbe = false ->
  (isNetworkAvailableCheck (probe env) (arrival env) = true ->
   adds_le p k (start <- time_Now ;; recoveryLoop env r url fuel start)) ->
  adds_le p k (mainLoop env r ctx url fuel n i err).
Proof.
  intros H0 H1 H2 H3 H4 Hr. revert i err. induction n as [|n IH]; intros i err; simpl.
  - apply keeps_adds_le, keeps_ret.
  - apply (main_step_adds p env r ctx url _ _ i 0 k); try assumption.
    + apply keeps_adds_le, keeps_create. exact H0.
    + intros e. apply IH.
Qed.

Lemma main_rest_keeps (p : Event -> bool) (env : Env) (r : RetryRequest) (ctx : Context)
    (url : string) (recover : Z -> M Ret) (next : option error -> M Ret) (i : Z) (x : Ret) :
  (forall d, p (EvBackoff d) = false) ->
  (forall j, p (EvCancel j) = false) ->
  (forall j, p (EvClose j) = false) ->
  p EvProbe = false ->
  (forall s, keeps p (recover s)) ->
  (forall e, keeps p (next e)) ->
  keeps p (main_rest env r ctx url recover next i x).
Proof.
  intros H1 H2 H3 H4 Hr Hn. destruct x as [[resp cancel] err]. unfold main_rest.
  assert (Hcancel : keeps p (call_cancel cancel))
    by (destruct cancel; simpl; [apply keeps_emit; apply H2 | apply keeps_panic]).
  assert (Hclose : keeps p (close_if_any resp))
    by (destruct resp; simpl; [apply keeps_Body_Close; apply H3 | apply keeps_ret]).
  apply keeps_bind.
  { destruct err; [exact Hcancel|]. destruct resp; simpl; [|apply keeps_panic].
    destruct (_ || _); [exact Hcancel | apply keeps_ret]. }
  intros _. apply keeps_bind; [exact Hclose | intros _].
  destruct (_ || _); [apply keeps_ret|].
  destruct (_ && _).
  - apply keeps_bind; [apply IsNetworkUnavailable_run_keeps; exact H4 | intros un].
    destruct un; [|apply Hn].
    apply keeps_bind; [apply keeps_time_Now | intros s; apply Hr].
  - apply keeps_bind; [apply backoff_keeps; exact H1 | intros berr].
    destruct berr; [apply keeps_ret | apply Hn].
Qed.

(** The main loop adds no event of a kind that none of its steps
    produces. *)
Lemma mainLoop_keeps (p : Event -> bool) (env : Env) (r : RetryRequest) (ctx : Context)
    (url : string) (fuel n : nat) (i : Z) (err : option error) :
  (forall ph k, p (EvDo ph k url) = false) ->
  (forall d, p (EvSleep d) = false) ->
  (forall d, p (EvBackoff d) = false) ->
  (forall j, p (EvCancel j) = false) ->
  (forall j, p (EvClose j) = false) ->
  p EvProbe = false ->
  keeps p (mainLoop env r ctx url fuel n i err).
Proof.
  intros H0 H1 H2 H3 H4 H5. revert i err. induction n as [|n IH]; intros i err; simpl.
  - apply keeps_ret.
  - unfold main_step.
    apply keeps_bind; [apply keeps_create; intros k; apply H0 | intros [[resp cancel] e]].
    assert (Hrest : keeps p (main_rest env r ctx url (recoveryLoop env r url fuel)
                               (mainLoop env r ctx url fuel n (i + 1)) i (resp, cancel, e))).
    { apply main_rest_keeps; try assumption.
      - intros s. apply recoveryLoop_keeps; try assumption. intros k. apply H0.
      - intros e'. apply IH. }
    destruct e; [exact Hrest|].
    destruct resp; simpl; [|apply keeps_panic].
    repeat (match goal with |- keeps _ (if ?c then _ else _) => destruct c end);
      first [apply keeps_ret | exact Hrest].
Qed.

Lemma limiter_Wait_keeps (p : Event -> bool) (env : Env) (ctx : Context) :
  p EvLimiterWait = false -> keeps p (limiter_Wait env ctx).
Proof.
  intros H. unfold limiter_Wait.
  apply keeps_bind; [apply keeps_emit; exact H | intros _].
  destruct (limiterBurstError env); [apply keeps_ret|].
  apply keeps_bind; [apply keeps_time_Now | intros t].
  destruct (ctx_done ctx t); [apply keeps_ret|].
  destruct (limiterDeadlineError env); [apply keeps_ret|].
  destruct (_ =? 0); [apply keeps_ret | apply keeps_select].
Qed.

(** [GetResponse] issues at most [maxRetries] attempts from its main loop,
    whatever the outcome. *)
Lemma GetResponse_attempts (env : Env) (r : RetryRequest) (ctx : Context) (url : string)
    (fuel : nat) :
  adds_le is_main_attempt (Z.to_nat (maxRetries r)) (GetResponse env r ctx url fuel).
Proof.
  unfold GetResponse.
  apply adds_le_bind_keeps; [apply keeps_emit; reflexivity | intros _].
  apply adds_le_bind_keeps.
  - destruct (isRateLimited r); [apply limiter_Wait_keeps; reflexivity | apply keeps_ret].
  - intros [e|]; [apply keeps_adds_le, keeps_ret | apply mainLoop_attempts].
Qed.

(** Every call of [GetResponse] is logged once. *)
Lemma GetResponse_logged (env : Env) (r : RetryRequest) (ctx : Context) (url : string)
    (fuel : nat) (w : World) :
  GetResponse_calls (snd (GetResponse env r ctx url fuel w)) = S (GetResponse_calls w).
Proof.
  unfold GetResponse, GetResponse_calls.
  unfold bind at 1. unfold emit at 1.
  match goal with
  | |- context [bind ?m ?f ?w1] =>
      assert (Hk : keeps is_GetResponse (bind m f))
  end.
  { apply keeps_bind.
    - destruct (isRateLimited r); [apply limiter_Wait_keeps; reflexivity | apply keeps_ret].
    - intros [e|]; [apply keeps_ret |].
      apply mainLoop_keeps; intros; reflexivity. }
  rewrite Hk. simpl. rewrite count_cons. reflexivity.
Qed.

(** ** What GetResponse returns *)

Lemma create_fresh (env : Env) (url : string) (ph : Phase) :
  returns (createRequestAndGetResponse env url ph) (fresh_result url).
Proof.
  intros w x w1. unfold createRequestAndGetResponse.
  destruct (newRequestErr env url).
  - intros H. inversion H. simpl. exact I.
  - destruct (result (transport env (sent w) url)); intros H; inversion H; simpl; eauto.
Qed.

Lemma call_cancel_Done (cancel : option nat) (w w1 : World) (u : unit) :
  call_cancel cancel w = (Done u, w1) -> exists k, cancel = Some k.
Proof. destruct cancel as [k|]; simpl; [eauto | discriminate]. Qed.

Lemma recovery_rest_returned (r : RetryRequest) (ctx : Context) (url : string)
    (again : M Ret) (x : Ret) (w0 : World) :
  resolveNetworkUnavailable r = true ->
  fresh_result url x w0 ->
  returns again (returned r ctx url) ->
  returns (recovery_rest url again x) (returned r ctx url).
Proof.
  intros Hres Hx Ha w a w' H. destruct x as [[resp cancel] err]. unfold recovery_rest in H.
  apply bind_Done in H. destruct H as [u [w1 [Hc H]]].
  apply call_cancel_Done in Hc. destruct Hc as [k ->].
  apply bind_Done in H. destruct H as [u' [w2 [_ H]]].
  destruct err as [e|]; [|eapply Ha; exact H].
  destruct (negb _) eqn:Hn; [|eapply Ha; exact H].
  inversion H; subst. simpl in Hx.
  destruct resp; [contradiction|]. destruct Hx as [ca ->].
  apply ret_recovery_error; [exact Hres|]. apply negb_true_iff in Hn. exact Hn.
Qed.

Lemma recovery_step_returned (env : Env) (r : RetryRequest) (ctx : Context) (url : string)
    (start : Z) (again : M Ret) :
  resolveNetworkUnavailable r = true ->
  returns again (returned r ctx url) ->
  returns (recovery_step env r url start again) (returned r ctx url).
Proof.
  intros Hres Ha w a w' H. unfold recovery_step in H.
  apply bind_Done in H. destruct H as [t [w1 [_ H]]].
  destruct (_ <=? 0); [inversion H; apply ret_recovery_timeout; exact Hres|].
  apply bind_Done in H. destruct H as [u [w2 [_ H]]].
  apply bind_Done in H. destruct H as [x [w3 [Hc H]]].
  apply create_fresh in Hc.
  pose proof (recovery_rest_returned r ctx url again x w3 Hres Hc Ha) as Hrest.
  destruct x as [[resp cancel] err].
  destruct err; [eapply Hrest; exact H|].
  destruct resp as [rsp|]; simpl in H; [|discriminate].
  simpl in Hc. destruct cancel as [k|]; [|contradiction]. destruct Hc as [-> Hin].
  destruct ((StatusCode rsp =? StatusNotFound) && noRetry404 r) eqn:E1.
  { apply andb_true_iff in E1. destruct E1 as [E1 E1']. apply Z.eqb_eq in E1.
    inversion H; subst. rewrite E1. apply ret_recovery_404; assumption. }
  destruct ((StatusCode rsp =? StatusUnprocessableEntity) && noRetry422 r) eqn:E2.
  { apply andb_true_iff in E2. destruct E2 as [E2 E2']. apply Z.eqb_eq in E2.
    inversion H; subst. rewrite E2. apply ret_recovery_422; assumption. }
  destruct (is2xx (StatusCode rsp)) eqn:E3.
  { inversion H; subst. apply ret_2xx; assumption. }
  eapply Hrest; exact H.
Qed.

Lemma recoveryLoop_returned (env : Env) (r : RetryRequest) (ctx : Context) (url : string)
    (fuel : nat) (start : Z) :
  resolveNetworkUnavailable r = true ->
  returns (recoveryLoop env r url fuel start) (returned r ctx url).
Proof.
  intros Hres. induction fuel as [|fuel IH]; simpl.
  - intros w a w' H. discriminate.
  - apply recovery_step_returned; [exact Hres | exact IH].
Qed.

Lemma select_ctx_timer_Done (tie : bool) (ctx : Context) (d : Z) (w w1 : World) (e : error) :
  select_ctx_timer tie ctx d w = (Done (Some e), w1) -> e = ContextErr (doneErr ctx).
Proof.
  unfold select_ctx_timer. destruct (doneAt ctx); [|intros H; inversion H].
  repeat break_match; intros H; inversion H; reflexivity.
Qed.

Lemma limiter_Wait_Done (env : Env) (ctx : Context) (w w1 : World) (e : error) :
  limiter_Wait env ctx w = (Done (Some e), w1) ->
  e = ContextErr (doneErr ctx) \/ (exists msg, e = ErrorString msg).
Proof.
  unfold limiter_Wait. intros H.
  apply bind_Done in H. destruct H as [u [w2 [_ H]]].
  destruct (limiterBurstError env); [inversion H; eauto|].
  apply bind_Done in H. destruct H as [t [w3 [_ H]]].
  destruct (ctx_done ctx t); [inversion H; auto|].
  destruct (limiterDeadlineError env); [inversion H; eauto|].
  destruct (_ =? 0); [inversion H|].
  left. eapply select_ctx_timer_Done. exact H.
Qed.

Lemma main_rest_returned (env : Env) (r : RetryRequest) (ctx : Context) (url : string)
    (recover : Z -> M Ret) (next : option error -> M Ret) (i : Z) (x : Ret) (w0 : World) :
  fresh_result url x w0 ->
  (resolveNetworkUnavailable r = true -> forall s, returns (recover s) (returned r ctx url)) ->
  (forall e, transport_err url e -> returns (next e) (returned r ctx url)) ->
  returns (main_rest env r ctx url recover next i x) (returned r ctx url).
Proof.
  intros Hx Hr Hn w a w' H. destruct x as [[resp cancel] err]. unfold main_rest in H.
  apply bind_Done in H. destruct H as [u [w1 [Hc H]]].
  assert (Herr : transport_err url err).
  { destruct err as [e|]; [|left; reflexivity].
    apply call_cancel_Done in Hc. destruct Hc as [k ->].
    simpl in Hx. destruct resp; [contradiction|]. destruct Hx as [ca ->].
    right. eauto. }
  clear Hc.
  apply bind_Done in H. destruct H as [u' [w2 [_ H]]].
  destruct (_ || _); [inversion H; apply ret_canceled|].
  destruct (resolveNetworkUnavailable r && (i =? maxRetries r - 1)) eqn:Hlast.
  - apply andb_true_iff in Hlast. destruct Hlast as [Hres _].
    apply bind_Done in H. destruct H as [un [w3 [_ H]]].
    destruct un; [|eapply Hn; eassumption].
    apply bind_Done in H. destruct H as [s [w4 [_ H]]]. eapply (Hr Hres); exact H.
  - apply bind_Done in H. destruct H as [berr [w3 [Hb H]]].
    destruct berr as [e|]; [|eapply Hn; eassumption].
    inversion H; subst.
    unfold backoff in Hb. apply bind_Done in Hb. destruct Hb as [u2 [w4 [_ Hb]]].
    apply select_ctx_timer_Done in Hb. subst. apply ret_backoff_canceled.
Qed.

Lemma mainLoop_returned (env : Env) (r : RetryRequest) (ctx : Context) (url : string)
    (fuel n : nat) (i : Z) (err : option error) :
  transport_err url err ->
  returns (mainLoop env r ctx url fuel n i err) (returned r ctx url).
Proof.
  revert i err. induction n as [|n IH]; intros i err Herr; simpl.
  - intros w a w' H. inversion H; subst. apply ret_exhausted. exact Herr.
  - intros w a w' H. unfold main_step in H.
    apply bind_Done in H. destruct H as [x [w1 [Hc H]]].
    apply create_fresh in Hc.
    pose proof (main_rest_returned env r ctx url (recoveryLoop env r url fuel)
                  (mainLoop env r ctx url fuel n (i + 1)) i x w1 Hc
                  (fun Hres s => recoveryLoop_returned env r ctx url fuel s Hres)
                  (IH (i + 1))) as Hrest.
    destruct x as [[resp cancel] e].
    destruct e; [eapply Hrest; exact H|].
    destruct resp as [rsp|]; simpl in H; [|discriminate].
    simpl in Hc. destruct cancel as [k|]; [|contradiction]. destruct Hc as [-> Hin].
    destruct ((StatusCode rsp =? StatusNotFound) && noRetry404 r) eqn:E1.
    { apply andb_true_iff in E1. destruct E1 as [E1 E1']. apply Z.eqb_eq in E1.
      inversion H; subst. apply ret_404_no_retry; assumption. }
    destruct (is2xx (StatusCode rsp)) eqn:E3.
    { inversion H; subst. apply ret_2xx; assumption. }
    eapply Hrest; exact H.
Qed.

(** Whatever [GetResponse] returns comes from one of its return statements,
    with what holds there. *)
Theorem GetResponse_returned (env : Env) (r : RetryRequest) (ctx : Context) (url : string)
    (fuel : nat) :
  returns (GetResponse env r ctx url fuel) (returned r ctx url).
Proof.
  intros w x w' H. unfold GetResponse in H.
  apply bind_Done in H. destruct H as [u [w1 [_ H]]].
  apply bind_Done in H. destruct H as [lerr [w2 [Hl H]]].
  destruct lerr as [le|].
  - inversion H; subst.
    destruct (isRateLimited r) eqn:Hrl; [|inversion Hl].
    apply ret_limiter; [exact Hrl|]. eapply limiter_Wait_Done. exact Hl.
  - eapply mainLoop_returned; [left; reflexivity | exact H].
Qed.

(** C10: when [GetResponse] returns an error, the response that comes with
    it is non-nil exactly for the policy-suppressed errors (the wrapped
    [ErrNotFoundNoRetry] of the main loop, the 404 and 422 status errors of
    the recovery loop), and then its body is still open and its cancel
    function is returned too; with every other error (limiter, transport,
    cancellation, recovery timeout, exhaustion) the response is nil. *)
Theorem C10_response_with_error (env : Env) (r : RetryRequest) (ctx : Context) (url : string)
    (fuel : nat) (w w' : World) (resp : option Response) (cancel : option nat) (e : error) :
  GetResponse env r ctx url fuel w = (Done (resp, cancel, Some e), w') ->
  if policy_suppressed e
  then exists rsp, resp = Some rsp /\ cancel = Some (Body rsp) /\ In (Body rsp) (opened w')
  else resp = None.
Proof.
  intros H. apply GetResponse_returned in H.
  inversion H; subst; simpl; eauto;
    match goal with Hd : _ \/ _ |- _ => destruct Hd as [->|[? ->]] end; reflexivity.
Qed.

Lemma C10_response_with_error_witness :
  let out := GetResponse (env_of (by_status [404]) false) (WithNoRetry404 NewRetryRequest)
               Background url_a 0 World0 in
  let rsp := {| Body := 0; reply := plain_reply 404 "body" 4 url_a |} in
  let e := Wrapf EmptyString (Some ErrNotFoundNoRetry) (": " ++ url_a) in
  out = (Done (Some rsp, Some 0%nat, Some e), snd out) /\
  exists rsp', Some rsp = Some rsp' /\ Some 0%nat = Some (Body rsp') /\
               In (Body rsp') (opened (snd out)).
Proof.
  split; [reflexivity|].
  exact (C10_response_with_error
           (env_of (by_status [404]) false) (WithNoRetry404 NewRetryRequest) Background url_a 0
           World0
           (snd (GetResponse (env_of (by_status [404]) false) (WithNoRetry404 NewRetryRequest)
                   Background url_a 0 World0))
           (Some {| Body := 0; reply := plain_reply 404 "body" 4 url_a |})
           (Some 0%nat)
           (Wrapf EmptyString (Some ErrNotFoundNoRetry) (": " ++ url_a))
           eq_refl).
Defined.

(** A transport error that is no network issue ends the recovery loop with
    a nil response: the other side of C10, on the canceled run. *)
Example nil_response_with_transport_error :
  fst (GetResponse (env_of outage_then_canceled true) one_attempt_robust canceled_after_1s
         url_a 10 World0)
  = Done (None, None, Some (UrlError "Get" url_a (CauseCtx Canceled))).
Proof. reflexivity. Qed.

(** Without a network retry policy no status error is ever returned: the
    errors for 404 and 422 come from the recovery loop alone. *)
Lemma no_status_error_without_recovery (env : Env) (r : RetryRequest) (ctx : Context)
    (url : string) (fuel : nat) (w w' : World) (resp : option Response)
    (cancel : option nat) (e : error) :
  resolveNetworkUnavailable r = false ->
  GetResponse env r ctx url fuel w = (Done (resp, cancel, Some e), w') ->
  forall code u msg, e <> StatusCodeError code u msg.
Proof.
  intros Hres H code u msg Heq. subst e. apply GetResponse_returned in H.
  inversion H; subst; try congruence.
  match goal with Hd : _ \/ _ |- _ => destruct Hd as [Hd|[? Hd]] end; discriminate.
Qed.

(** The error of exhaustion never wraps a [StatusCodeError]: its cause is
    nil or an error of the transport. *)
Lemma exhaustion_cause (env : Env) (r : RetryRequest) (ctx : Context) (url : string)
    (fuel : nat) (w w' : World) (resp : option Response) (cancel : option nat)
    (pre post : string) (c : option error) :
  GetResponse env r ctx url fuel w = (Done (resp, cancel, Some (Wrapf pre c post)), w') ->
  c = Some ErrNotFoundNoRetry \/ c = None \/ exists ca, c = Some (UrlError "Get" url ca).
Proof.
  intros H. apply GetResponse_returned in H.
  inversion H; subst; auto.
  match goal with Hd : _ \/ _ |- _ => destruct Hd as [Hd|[? Hd]] end; discriminate.
Qed.

(** ** The recovery loop ends *)

(** One iteration of the recovery loop, when time is left: either it goes
    round again, having slept and made one attempt, or it ends. *)
Lemma recovery_step_cases (env : Env) (r : RetryRequest) (url : string) (start : Z)
    (again : M Ret) (w : World) :
  let R := networkUnavailableMaxWait r - (now w - start) in
  let out := recovery_step env r url start again w in
  (exists w', out = again w' /\
              0 < R /\
              now w + Z.max 0 (Z.min R (networkUnavailableBackOff r)) <= now w' /\
              recovery_attempts w' = S (recovery_attempts w)) \/
  (fst out <> OutOfFuel /\
   (recovery_attempts (snd out) <= S (recovery_attempts w))%nat /\
   (R <= 0 -> recovery_attempts (snd out) = recovery_attempts w)).
Proof.
  intros R out. subst out R.
  unfold recovery_step, recovery_rest, bind, time_Now, time_Sleep, emit, tick, ret,
    createRequestAndGetResponse, with_status, call_cancel, close_if_any, Body_Close, panic,
    recovery_attempts, count.
  cbn.
  destruct (_ <=? 0) eqn:HR.
  { right. cbn. split; [discriminate | split; [lia | reflexivity]]. }
  apply Z.leb_gt in HR.
  destruct (newRequestErr env url) eqn:Hreq; cbn.
  { right. cbn. split; [discriminate | split; [lia | intros; lia]]. }
  destruct (result (transport env (sent w) url)) eqn:Hres; cbn.
  - repeat break_if; cbn;
      try (right; cbn; split; [discriminate | split; [lia | intros; lia]]).
    left. eexists. split; [reflexivity|]. cbn. repeat split; try lia.
  - repeat break_if; cbn;
      try (right; cbn; split; [discriminate | split; [lia | intros; lia]]).
    left. eexists. split; [reflexivity|]. cbn. repeat split; try lia.
Qed.

(** With a positive sleep between its attempts the recovery loop makes at
    most [attempts_left] attempts, one per sleep that fits the wait left, and
    it ends: fuel beyond that number is not used up. *)
Lemma recoveryLoop_bound (env : Env) (r : RetryRequest) (url : string) (start : Z) :
  0 < networkUnavailableBackOff r ->
  forall (fuel : nat) (w : World),
    let left := attempts_left (networkUnavailableMaxWait r - (now w - start))
                  (networkUnavailableBackOff r) in
    let out := recoveryLoop env r url fuel start w in
    (recovery_attempts (snd out) <= recovery_attempts w + left)%nat /\
    ((left < fuel)%nat -> fst out <> OutOfFuel).
Proof.
  intros Hb fuel. induction fuel as [|fuel IH]; intros w left out; subst left out.
  - simpl. split; [lia | intros H; lia].
  - cbn [recoveryLoop].
    destruct (recovery_step_cases env r url start (recoveryLoop env r url fuel start) w)
      as [[w' [Heq [HR [Hnow Hcnt]]]] | [Hsafe [Hle Hzero]]].
    + rewrite Heq. destruct (IH w') as [IH1 IH2].
      pose proof (attempts_left_step
                    (networkUnavailableMaxWait r - (now w - start))
                    (networkUnavailableMaxWait r - (now w' - start))
                    (networkUnavailableBackOff r) Hb HR) as Hstep.
      assert (Hle : (S (attempts_left (networkUnavailableMaxWait r - (now w' - start))
                          (networkUnavailableBackOff r))
                     <= attempts_left (networkUnavailableMaxWait r - (now w - start))
                          (networkUnavailableBackOff r))%nat) by (apply Hstep; lia).
      split; [lia | intros Hf; apply IH2; lia].
    + split; [|intros _; exact Hsafe].
      destruct (Z.le_gt_cases (networkUnavailableMaxWait r - (now w - start)) 0) as [H0|H0].
      * rewrite (Hzero H0). lia.
      * pose proof (attempts_left_step
                      (networkUnavailableMaxWait r - (now w - start)) 0
                      (networkUnavailableBackOff r) Hb H0) as Hstep.
        assert ((1 <= attempts_left (networkUnavailableMaxWait r - (now w - start))
                        (networkUnavailableBackOff r))%nat) by (apply Nat.le_trans with (2 := Hstep ltac:(lia)); lia).
        lia.
Qed.

Lemma safe_ret {A} (a : A) : safe (ret a).
Proof. intros w. discriminate. Qed.

Lemma safe_bind {A B} (m : M A) (f : A -> M B) :
  safe m -> (forall a, safe (f a)) -> safe (bind m f).
Proof.
  intros Hm Hf w. unfold bind. specialize (Hm w).
  destruct (m w) as [[a| |] w1]; simpl in *.
  - apply Hf.
  - discriminate.
  - exfalso. apply Hm. reflexivity.
Qed.

Lemma safe_emit (e : Event) : safe (emit e).
Proof. intros w. discriminate. Qed.

Lemma safe_time_Now : safe time_Now.
Proof. intros w. discriminate. Qed.

Lemma safe_select (tie : bool) (ctx : Context) (d : Z) : safe (select_ctx_timer tie ctx d).
Proof.
  intros w. unfold select_ctx_timer. destruct (doneAt ctx); [|discriminate].
  repeat break_match; discriminate.
Qed.

Lemma safe_create (env : Env) (url : string) (ph : Phase) :
  safe (createRequestAndGetResponse env url ph).
Proof.
  intros w. unfold createRequestAndGetResponse.
  destruct (newRequestErr env url); [discriminate|].
  destruct (result _); discriminate.
Qed.

Lemma safe_call_cancel (cancel : option nat) : safe (call_cancel cancel).
Proof. destruct cancel; intros w; discriminate. Qed.

Lemma safe_close_if_any (resp : option Response) : safe (close_if_any resp).
Proof. destruct resp; intros w; discriminate. Qed.

Lemma safe_main_rest (env : Env) (r : RetryRequest) (ctx : Context) (url : string)
    (recover : Z -> M Ret) (next : option error -> M Ret) (i : Z) (x : Ret) :
  safe (start <- time_Now ;; recover start) ->
  (forall e, safe (next e)) ->
  safe (main_rest env r ctx url recover next i x).
Proof.
  intros Hr Hn. destruct x as [[resp cancel] err]. unfold main_rest.
  apply safe_bind.
  { destruct err; [apply safe_call_cancel|]. destruct resp; simpl; [|intros w; discriminate].
    destruct (_ || _); [apply safe_call_cancel | apply safe_ret]. }
  intros _. apply safe_bind; [apply safe_close_if_any | intros _].
  destruct (_ || _); [apply safe_ret|].
  destruct (_ && _).
  - apply safe_bind.
    + unfold IsNetworkUnavailable_run. destruct (negb _); [apply safe_ret|].
      apply safe_bind; [apply safe_emit | intros _].
      apply safe_bind; [intros w; discriminate | intros _; apply safe_ret].
    + intros un. destruct un; [exact Hr | apply Hn].
  - apply safe_bind.
    + unfold backoff. apply safe_bind; [apply safe_emit | intros _; apply safe_select].
    + intros berr. destruct berr; [apply safe_ret | apply Hn].
Qed.

Lemma safe_mainLoop (env : Env) (r : RetryRequest) (ctx : Context) (url : string)
    (fuel n : nat) (i : Z) (err : option error) :
  safe (start <- time_Now ;; recoveryLoop env r url fuel start) ->
  safe (mainLoop env r ctx url fuel n i err).
Proof.
  intros Hr. revert i err. induction n as [|n IH]; intros i err; simpl.
  - apply safe_ret.
  - unfold main_step. apply safe_bind; [apply safe_create | intros [[resp cancel] e]].
    pose proof (safe_main_rest env r ctx url (recoveryLoop env r url fuel)
                  (mainLoop env r ctx url fuel n (i + 1)) i (resp, cancel, e) Hr
                  (IH (i + 1))) as Hrest.
    destruct e; [exact Hrest|].
    destruct resp; simpl; [|intros w; discriminate].
    repeat (match goal with |- safe (if ?c then _ else _) => destruct c end);
      first [apply safe_ret | exact Hrest].
Qed.

(** With a positive sleep in the network retry policy, [GetResponse] comes
    to an end, by a return or a panic, for every environment: the fuel of the
    model is not used up once it exceeds the attempts the wait allows. *)
Theorem GetResponse_ends (env : Env) (r : RetryRequest) (ctx : Context) (url : string)
    (fuel : nat) (w : World) :
  0 < networkUnavailableBackOff r ->
  (attempts_left (networkUnavailableMaxWait r) (networkUnavailableBackOff r) < fuel)%nat ->
  fst (GetResponse env r ctx url fuel w) <> OutOfFuel.
Proof.
  intros Hb Hf. revert w.
  change (safe (GetResponse env r ctx url fuel)). unfold GetResponse.
  apply safe_bind; [apply safe_emit | intros _].
  apply safe_bind.
  - destruct (isRateLimited r); [|apply safe_ret].
    unfold limiter_Wait. apply safe_bind; [apply safe_emit | intros _].
    destruct (limiterBurstError env); [apply safe_ret|].
    apply safe_bind; [apply safe_time_Now | intros t].
    destruct (ctx_done ctx t); [apply safe_ret|].
    destruct (limiterDeadlineError env); [apply safe_ret|].
    destruct (_ =? 0); [apply safe_ret | apply safe_select].
  - intros [e|]; [apply safe_ret|].
    apply safe_mainLoop. intros w. unfold bind, time_Now. simpl.
    destruct (recoveryLoop_bound env r url (now w) Hb fuel w) as [_ H].
    apply H. replace (networkUnavailableMaxWait r - (now w - now w))
      with (networkUnavailableMaxWait r) by lia.
    exact Hf.
Qed.

(** The attempts of the recovery loop are bounded by the wait: at most one
    per sleep that fits [networkUnavailableMaxWait]. *)
Theorem recovery_attempts_bounded (env : Env) (r : RetryRequest) (ctx : Context)
    (url : string) (fuel : nat) (w : World) :
  0 < networkUnavailableBackOff r ->
  (recovery_attempts (snd (GetResponse env r ctx url fuel w))
   <= recovery_attempts w
      + attempts_left (networkUnavailableMaxWait r) (networkUnavailableBackOff r))%nat.
Proof.
  intros Hb. revert w.
  change (adds_le is_recovery_attempt
            (attempts_left (networkUnavailableMaxWait r) (networkUnavailableBackOff r))
            (GetResponse env r ctx url fuel)).
  unfold GetResponse.
  apply adds_le_bind_keeps; [apply keeps_emit; reflexivity | intros _].
  apply adds_le_bind_keeps;
    [destruct (isRateLimited r); [apply limiter_Wait_keeps; reflexivity | apply keeps_ret]|].
  intros [e|]; [apply keeps_adds_le, keeps_ret|].
  apply mainLoop_adds_recovery; try (intros; reflexivity).
  intros _ w. unfold bind, time_Now. simpl.
  destruct (recoveryLoop_bound env r url (now w) Hb fuel w) as [H _].
  replace (networkUnavailableMaxWait r - (now w - now w))
    with (networkUnavailableMaxWait r) in H by lia.
  exact H.
Qed.

(** ** Entering the recovery loop *)

(** The recovery loop is entered only after a probe request has succeeded:
    when all of them fail, [GetResponse] makes no attempt from it. *)
Theorem no_recovery_when_all_probes_fail (env : Env) (r : RetryRequest) (ctx : Context)
    (url : string) (fuel : nat) (w : World) :
  (forall u, In u (arrival env) -> probe env u = false) ->
  (recovery_attempts (snd (GetResponse env r ctx url fuel w)) <= recovery_attempts w)%nat.
Proof.
  intros Hp.
  assert (Hav : isNetworkAvailableCheck (probe env) (arrival env) = false).
  { destruct (isNetworkAvailableCheck (probe env) (arrival env)) eqn:E; [|reflexivity].
    apply isNetworkAvailableCheck_true in E. destruct E as [u [Hin Hu]].
    rewrite (Hp u Hin) in Hu. discriminate. }
  assert (H : adds_le is_recovery_attempt 0 (GetResponse env r ctx url fuel)).
  { unfold GetResponse.
    apply adds_le_bind_keeps; [apply keeps_emit; reflexivity | intros _].
    apply adds_le_bind_keeps;
      [destruct (isRateLimited r); [apply limiter_Wait_keeps; reflexivity | apply keeps_ret]|].
    intros [e|]; [apply keeps_adds_le, keeps_ret|].
    apply mainLoop_adds_recovery; try (intros; reflexivity).
    intros Habs. congruence. }
  specialize (H w). unfold recovery_attempts. lia.
Qed.

(** C1, on the code: for the dial timeout of the scenario, a network issue
    by its text, [IsNetworkUnavailable] answers [true] when all four probe
    requests succeed and [false] when all four fail; [GetResponse] then
    enters the recovery loop (one sleep, one more attempt) with the network
    up and gives up at once with the network down. *)
Theorem C1_unavailable_when_probes_succeed :
  let err := Some (UrlError "Get" url_a dial_timeout) in
  IsPossibleNetworkOrDNSIssueErr err url_a = true /\
  IsNetworkUnavailable (fun _ => true) probe_urls err url_a = true /\
  IsNetworkUnavailable (fun _ => false) probe_urls err url_a = false /\
  recovery_attempts
    (snd (GetResponse (env_of outage_then_ok true) one_attempt_robust Background url_a 10 World0))
    = 1%nat /\
  recovery_attempts
    (snd (GetResponse (env_of outage_then_ok false) one_attempt_robust Background url_a 10 World0))
    = 0%nat.
Proof. vm_compute. repeat split; reflexivity. Qed.

(** ** The 404 that is not retried *)

(** C2, as the code has it: with [noRetry404] set, a first attempt answered
    with 404 is the only attempt; [GetResponse] returns at once the wrapped
    [ErrNotFoundNoRetry] together with the response and its cancel function.
    The body is not closed: it is still open in the world the call leaves,
    whose log has the one attempt and no release after it.  [w1] is the world
    once the limiter, if any, has let the call through. *)
Theorem C2_first_404_not_retried (env : Env) (r : RetryRequest) (ctx : Context) (url : string)
    (fuel : nat) (w w1 : World) (rep : Reply) :
  noRetry404 r = true ->
  0 < maxRetries r ->
  newRequestErr env url = None ->
  (if isRateLimited r then limiter_Wait env ctx else ret None)
    (snd (emit (EvGetResponse url) w)) = (Done None, w1) ->
  result (transport env (sent w1) url) = inl rep ->
  status rep = 404 ->
  GetResponse env r ctx url fuel w =
    (Done (Some {| Body := sent w1; reply := rep |}, Some (sent w1),
           Some (Wrapf EmptyString (Some ErrNotFoundNoRetry) (": " ++ url))),
     {| now := now w1 + Z.max 0 (elapsed (transport env (sent w1) url));
        sent := S (sent w1);
        opened := sent w1 :: opened w1;
        log := EvDo MainLoop (sent w1) url :: log w1 |}).
Proof.
  intros H404 Hmax Hreq Hlim Hrep Hst.
  unfold GetResponse. unfold bind at 1. simpl in Hlim |- *.
  unfold bind at 1. rewrite Hlim.
  destruct (Z.to_nat (maxRetries r)) as [|n] eqn:Hn; [lia|].
  simpl. unfold main_step, bind, createRequestAndGetResponse.
  rewrite Hreq, Hrep. simpl. unfold StatusCode. simpl.
  rewrite Hst, H404. reflexivity.
Qed.

Lemma C2_first_404_not_retried_witness :
  let env := env_of (by_status [404]) false in
  let r := WithNoRetry404 NewRetryRequest in
  let rep := plain_reply 404 "body" 4 url_a in
  let w1 := snd (emit (EvGetResponse url_a) World0) in
  noRetry404 r = true /\ 0 < maxRetries r /\ newRequestErr env url_a = None /\
  status rep = 404 /\
  GetResponse env r Background url_a 0 World0 =
    (Done (Some {| Body := 0; reply := rep |}, Some 0%nat,
           Some (Wrapf EmptyString (Some ErrNotFoundNoRetry) (": " ++ url_a))),
     {| now := 0; sent := 1; opened := [0%nat];
        log := [EvDo MainLoop 0 url_a; EvGetResponse url_a] |}).
Proof.
  split; [reflexivity|]. split; [reflexivity|]. split; [reflexivity|]. split; [reflexivity|].
  exact (C2_first_404_not_retried
           (env_of (by_status [404]) false) (WithNoRetry404 NewRetryRequest) Background url_a 0
           World0 (snd (emit (EvGetResponse url_a) World0))
           (plain_reply 404 "body" 4 url_a)
           eq_refl eq_refl eq_refl eq_refl eq_refl eq_refl).
Defined.

(** C2 as stated fails: on a first 404 with [noRetry404] the call makes its
    one attempt and returns the not-found-no-retry error, but the body of the
    response has not been closed. *)
Lemma C2_body_not_closed :
  let out := GetResponse (env_of (by_status [404]) false) (WithNoRetry404 NewRetryRequest)
               Background url_a 0 World0 in
  (exists rsp cancel e,
      fst out = Done (Some rsp, cancel, Some e) /\ Is404NoRetryError e = true /\
      StatusCode rsp = 404 /\ Body rsp = 0%nat) /\
  main_attempts (snd out) = 1%nat /\
  In 0%nat (opened (snd out)) /\
  ~ closed 0 (snd out).
Proof.
  split; [|split; [|split]].
  - eexists _, _, _. repeat split.
  - reflexivity.
  - simpl. auto.
  - unfold closed. simpl. intros [H|[H|[]]]; discriminate.
Qed.

(** ** The 422 in the main loop *)

(** C3, on the code: the fetcher for short urls sets [noRetry422], and
    still a 422 in the main loop is treated like any other failure: it is
    released, backed off and retried until the attempts are used up.  Against
    a server that always answers 422 the call makes its three attempts and
    ends with the error of exhaustion; with a 200 after the first 422 the
    retry succeeds. *)
Theorem C3_422_retried_in_main_loop :
  let r := TwitterShortURLFetcher in
  let always := GetResponse (env_of (by_status [422; 422; 422]) false) r Background url_a 10
                  World0 in
  let once := GetResponse (env_of (by_status [422; 200]) false) r Background url_a 10
                World0 in
  noRetry422 r = true /\
  fst always = Done (None, None,
                     Some (Wrapf "max retries reached: last error: " None EmptyString)) /\
  main_attempts (snd always) = 3%nat /\
  rev (log (snd always)) =
    [EvGetResponse url_a;
     EvDo MainLoop 0 url_a; EvCancel 0; EvClose 0; EvBackoff (5 * Second);
     EvDo MainLoop 1 url_a; EvCancel 1; EvClose 1; EvBackoff (10 * Second);
     EvDo MainLoop 2 url_a; EvCancel 2; EvClose 2; EvBackoff (20 * Second)] /\
  fst once = Done (Some {| Body := 1; reply := plain_reply 200 "body" 4 url_a |},
                   Some 1%nat, None) /\
  main_attempts (snd once) = 2%nat.
Proof. vm_compute. repeat split; reflexivity. Qed.

(** In the recovery loop the same 422 stops the call at once, with the
    status error. *)
Example recovery_422_not_retried :
  let r := WithNoRetry422 one_attempt_robust in
  let tr := fun (k : nat) (u : string) =>
              match k with
              | O => fails dial_timeout
              | _ => answers (plain_reply 422 "no" 2 u)
              end in
  let out := GetResponse (env_of tr true) r Background url_a 10 World0 in
  fst out = Done (Some {| Body := 1; reply := plain_reply 422 "no" 2 url_a |}, Some 1%nat,
                  Some (StatusCodeError 422 url_a "422 Unprocessable Entity")) /\
  recovery_attempts (snd out) = 1%nat.
Proof. vm_compute. split; reflexivity. Qed.

(** ** Cancellation *)

(** The waits of the limiter, of [backoff] and of the stream poll are one
    [select] on the context and a timer: a context that ends before the
    timer fires ends the wait at that instant, with its error. *)
Lemma select_canceled (tie : bool) (ctx : Context) (c d : Z) (w : World) :
  doneAt ctx = Some c ->
  Z.max (now w) c < now w + Z.max 0 d ->
  select_ctx_timer tie ctx d w =
    (Done (Some (ContextErr (doneErr ctx))),
     {| now := Z.max (now w) c; sent := sent w; opened := opened w; log := log w |}).
Proof.
  intros Hc H. unfold select_ctx_timer. rewrite Hc.
  apply Z.ltb_lt in H. rewrite H. reflexivity.
Qed.

(** [time.Sleep] takes its whole duration, whatever happens to any
    context. *)
Lemma time_Sleep_full (d : Z) (w : World) :
  time_Sleep d w =
    (Done tt, {| now := now w + Z.max 0 d; sent := sent w; opened := opened w;
                 log := EvSleep d :: log w |}).
Proof. reflexivity. Qed.

(** C5, on the code: the sleep of the recovery loop is a [time.Sleep].  In
    the run below the context is canceled after one second, while the
    recovery loop sleeps its five minutes; the call returns only when the
    sleep is over, at five minutes, with the error of the attempt that
    follows. *)
Theorem C5_recovery_sleep_not_cancellable :
  let out := GetResponse (env_of outage_then_canceled true) one_attempt_robust
               canceled_after_1s url_a 10 World0 in
  doneAt canceled_after_1s = Some (1 * Second) /\
  fst out = Done (None, None, Some (UrlError "Get" url_a (CauseCtx Canceled))) /\
  now (snd out) = 5 * Minute /\
  rev (log (snd out)) =
    [EvGetResponse url_a; EvDo MainLoop 0 url_a; EvCancel 0; EvProbe;
     EvSleep (5 * Minute); EvDo Recovery 1 url_a; EvCancel 1].
Proof. vm_compute. repeat split; reflexivity. Qed.

(** The same cancellation during a backoff of the main loop ends the call
    at the instant of the cancellation. *)
Example backoff_sleep_cancellable :
  let r := WithAttemptsAndBackoff 2 (5 * Minute) NewRetryRequest in
  let out := GetResponse (env_of (by_status [500; 200]) false) r canceled_after_1s url_a 10
               World0 in
  fst out = Done (None, None, Some (ContextErr Canceled)) /\
  now (snd out) = 1 * Second /\
  main_attempts (snd out) = 1%nat.
Proof. vm_compute. repeat split; reflexivity. Qed.

(** ** Exhaustion *)

(** C6, on the code: the error of exhaustion wraps the variable [err], the
    error of the transport.  When the last attempt was answered, with a 500
    here, that variable is nil: nothing is wrapped, no [StatusCodeError] is
    made, and the message ends in the mark [fmt] prints for a nil operand. *)
Theorem C6_exhaustion_wraps_nil :
  let r := WithAttemptsAndBackoff 1 (3 * Second) NewRetryRequest in
  let out := GetResponse (env_of (by_status [500]) false) r Background url_a 10 World0 in
  exists e,
    fst out = Done (None, None, Some e) /\
    Unwrap e = None /\
    Error e = "max retries reached: last error: %!w(<nil>)" /\
    main_attempts (snd out) = 1%nat.
Proof. eexists. vm_compute. repeat split; reflexivity. Qed.

(** After a transport error the same error of exhaustion wraps that
    error. *)
Example exhaustion_wraps_transport_error :
  let r := WithAttemptsAndBackoff 1 (3 * Second) NewRetryRequest in
  let tr := fun (k : nat) (u : string) => fails (CauseNet "connection refused") in
  let out := GetResponse (env_of tr false) r Background url_a 10 World0 in
  fst out = Done (None, None,
                  Some (Wrapf "max retries reached: last error: "
                          (Some (UrlError "Get" url_a (CauseNet "connection refused")))
                          EmptyString)).
Proof. reflexivity. Qed.

(** ** The number of attempts *)

Lemma deferred_cancel_keeps (p : Event -> bool) (cancel : option nat) :
  (forall k, p (EvCancel k) = false) -> keeps p (deferred_cancel cancel).
Proof.
  intros H. destruct cancel; simpl; [apply keeps_emit; apply H | apply keeps_ret].
Qed.

Lemma GetResponse_calls_le (env : Env) (r : RetryRequest) (ctx : Context) (url : string)
    (fuel : nat) :
  adds_le is_GetResponse 1 (GetResponse env r ctx url fuel).
Proof.
  intros w. pose proof (GetResponse_logged env r ctx url fuel w) as H.
  unfold GetResponse_calls in H. lia.
Qed.

(** [attemptFetchContents] adds to the log what its one call of
    [GetResponse] adds. *)
Lemma attemptFetchContents_adds (p : Event -> bool) (k : nat) (env : Env) (r : RetryRequest)
    (ctx : Context) (url : string) (fuel : nat) :
  (forall j, p (EvCancel j) = false) ->
  (forall j, p (EvClose j) = false) ->
  adds_le p k (GetResponse env r ctx url fuel) ->
  adds_le p k (attemptFetchContents env r ctx url fuel).
Proof.
  intros H1 H2 Hg. unfold attemptFetchContents.
  replace k with (k + 0)%nat by lia.
  apply adds_le_bind; [exact Hg | intros [[resp cancel] err]].
  apply keeps_adds_le.
  pose proof (deferred_cancel_keeps p cancel H1) as Hc.
  destruct err.
  - apply keeps_bind; [exact Hc | intros _; apply keeps_ret].
  - destruct resp.
    + apply keeps_bind; [apply keeps_Body_Close; apply H2 | intros _].
      apply keeps_bind; [exact Hc | intros _; apply keeps_ret].
    + apply keeps_bind; [exact Hc | intros _; apply keeps_ret].
Qed.

Lemma fetchLoop_adds (p : Event -> bool) (k : nat) (env : Env) (r : RetryRequest)
    (ctx : Context) (url : string) (fuel n : nat) (attempt : Z) (err : option error) :
  (forall j, p (EvCancel j) = false) ->
  (forall j, p (EvClose j) = false) ->
  (forall d, p (EvBackoff d) = false) ->
  adds_le p k (GetResponse env r ctx url fuel) ->
  adds_le p (n * k) (fetchLoop env r ctx url fuel n attempt err).
Proof.
  intros H1 H2 H3 Hg. revert attempt err.
  induction n as [|n IH]; intros attempt err; simpl.
  - apply keeps_adds_le, keeps_ret.
  - apply adds_le_bind; [apply attemptFetchContents_adds; assumption | intros [bodyBytes e]].
    destruct e as [e|]; [|apply keeps_adds_le, keeps_ret].
    destruct (strings.Contains _ _); [|apply keeps_adds_le, keeps_ret].
    apply adds_le_bind_keeps; [apply backoff_keeps; exact H3 | intros berr].
    destruct berr; [apply keeps_adds_le, keeps_ret | apply IH].
Qed.

Lemma fetchContentsAsBytes_bounds (env : Env) (r : RetryRequest) (ctx : Context)
    (url : string) (fuel : nat) (w : World) :
  let m := Z.to_nat (maxRetries r) in
  let w' := snd (fetchContentsAsBytes env r ctx url fuel w) in
  (GetResponse_calls w' <= GetResponse_calls w + m)%nat /\
  (main_attempts w' <= main_attempts w + m * m)%nat.
Proof.
  unfold fetchContentsAsBytes, GetResponse_calls, main_attempts. split.
  - pose proof (fetchLoop_adds is_GetResponse 1 env r ctx url fuel (Z.to_nat (maxRetries r)) 0
                  None (fun _ => eq_refl) (fun _ => eq_refl) (fun _ => eq_refl)
                  (GetResponse_calls_le env r ctx url fuel) w) as H.
    lia.
  - exact (fetchLoop_adds is_main_attempt _ env r ctx url fuel (Z.to_nat (maxRetries r)) 0
             None (fun _ => eq_refl) (fun _ => eq_refl) (fun _ => eq_refl)
             (GetResponse_attempts env r ctx url fuel) w).
Qed.

Lemma GetContentsAsBytesWithContext_world (env : Env) (r : RetryRequest) (ctx : Context)
    (url : string) (fuel : nat) (w : World) :
  snd (GetContentsAsBytesWithContext env r ctx url fuel w)
  = snd (fetchContentsAsBytes env r ctx url fuel w).
Proof.
  unfold GetContentsAsBytesWithContext, bind.
  destruct (fetchContentsAsBytes env r ctx url fuel w) as [[[b [e|]]| |] w1]; reflexivity.
Qed.

(** C4, as the code has it: the main loop of one call of [GetResponse]
    issues at most [maxRetries] attempts (none for a negative maximum),
    whatever else happens, the attempts of the recovery loop not counted.
    The content fetchers call [GetResponse] up to [maxRetries] times, again
    after each stream error, so that their bound on the attempts of the main
    loops is [maxRetries] calls of [maxRetries] attempts each. *)
Theorem C4_attempts_bounded (env : Env) (r : RetryRequest) (ctx : Context) (url : string)
    (fuel : nat) (w : World) :
  let m := Z.to_nat (maxRetries r) in
  (main_attempts (snd (GetResponse env r ctx url fuel w)) <= main_attempts w + m)%nat /\
  (forall w',
      w' = snd (GetContentsAsBytesWithContext env r ctx url fuel w) \/
      w' = snd (GetContentsAsBytes env r url fuel w) \/
      w' = snd (GetContents env r url fuel w) ->
      (GetResponse_calls w' <= GetResponse_calls w + m)%nat /\
      (main_attempts w' <= main_attempts w + m * m)%nat).
Proof.
  split.
  - apply GetResponse_attempts.
  - intros w' [H|[H|H]]; subst w'.
    + rewrite GetContentsAsBytesWithContext_world. apply fetchContentsAsBytes_bounds.
    + unfold GetContentsAsBytes.
      fold (GetContentsAsBytesWithContext env r Background url fuel).
      rewrite GetContentsAsBytesWithContext_world. apply fetchContentsAsBytes_bounds.
    + unfold GetContents.
      fold (GetContentsAsBytesWithContext env r Background url fuel).
      rewrite GetContentsAsBytesWithContext_world. apply fetchContentsAsBytes_bounds.
Qed.

(** C4 as stated fails for the content fetchers: with two attempts
    configured and no network retry policy, a body that breaks with a stream
    error makes [GetContentsAsBytesWithContext] call [GetResponse] again, and
    three attempts are issued in all, none of them by a recovery loop. *)
Lemma C4_three_attempts_for_two :
  let out := GetContentsAsBytesWithContext (env_of stream_error_once false) two_attempts
               Background url_a 10 World0 in
  maxRetries two_attempts = 2 /\
  resolveNetworkUnavailable two_attempts = false /\
  fst out = Done ("body", None) /\
  main_attempts (snd out) = 3%nat /\
  recovery_attempts (snd out) = 0%nat /\
  ~ (main_attempts (snd out) <= Z.to_nat (maxRetries two_attempts))%nat.
Proof.
  vm_compute. repeat split; try reflexivity. intros H.
  repeat match goal with H : (S _ <= _)%nat |- _ => apply le_S_n in H end.
  inversion H.
Qed.

(** ** The redirect chaser *)

(** The pattern for the meta refresh finds the target of the page of the
    scenario; a page without either idiom has none. *)
Example extract_meta_refresh :
  extractJavaScriptRedirect (page_to url_b) = (url_b, true) /\
  extractJavaScriptRedirect
    ("<script>window.location.replace(" ++ dquote ++ url_b ++ dquote ++ ")</script>")
    = (url_b, true) /\
  extractJavaScriptRedirect "<html>plain</html>" = (EmptyString, false).
Proof. vm_compute. repeat split; reflexivity. Qed.

(** With scanning disabled the function does not call itself: one level of
    nesting is all it uses. *)
Lemma no_scan_no_recursion (env : Env) (rr : RetryRequest) (ctx : Context)
    (depth fuel : nat) (urlStr : string) (w : World) :
  getContentsAsBytesWithContextAndFinalURL env rr ctx (S depth) fuel urlStr false w
  = getContentsAsBytesWithContextAndFinalURL env rr ctx 1 fuel urlStr false w.
Proof.
  simpl. destruct (url_Parse env urlStr); [reflexivity|].
  unfold bind. destruct (GetResponse env rr ctx urlStr fuel w) as [[[[resp cancel] err]| |] w1];
    reflexivity.
Qed.

(** With scanning disabled at most one call of [GetResponse] is made. *)
Lemma no_scan_one_fetch (env : Env) (rr : RetryRequest) (ctx : Context)
    (depth fuel : nat) (urlStr : string) :
  adds_le is_GetResponse 1
    (getContentsAsBytesWithContextAndFinalURL env rr ctx depth fuel urlStr false).
Proof.
  destruct depth as [|depth]; simpl; [apply keeps_adds_le, keeps_diverge|].
  destruct (url_Parse env urlStr); [apply keeps_adds_le, keeps_ret|].
  apply (adds_le_bind is_GetResponse _ _ 1 0);
    [apply GetResponse_calls_le | intros [[resp cancel] err]].
  apply keeps_adds_le.
  pose proof (deferred_cancel_keeps is_GetResponse cancel (fun _ => eq_refl)) as Hc.
  destruct err; [apply keeps_bind; [exact Hc | intros _; apply keeps_ret]|].
  destruct resp; [|apply keeps_bind; [exact Hc | intros _; apply keeps_ret]].
  simpl. destruct (readErr _).
  - apply keeps_bind; [apply keeps_Body_Close; reflexivity | intros _].
    apply keeps_bind; [exact Hc | intros _; apply keeps_ret].
  - destruct (extractJavaScriptRedirect _) as [finalURLStr found]. simpl.
    apply keeps_bind; [apply keeps_Body_Close; reflexivity | intros _].
    apply keeps_bind; [exact Hc | intros _; apply keeps_ret].
Qed.

(** With scanning disabled a body that was fetched and read is returned as
    it is, with the url of its request, whatever it contains. *)
Lemma no_scan_returns_body (env : Env) (rr : RetryRequest) (ctx : Context)
    (depth fuel : nat) (urlStr : string) (w w1 : World) (rsp : Response)
    (cancel : option nat) :
  url_Parse env urlStr = None ->
  GetResponse env rr ctx urlStr fuel w = (Done (Some rsp, cancel, None), w1) ->
  readErr (payload (reply rsp)) = None ->
  fst (getContentsAsBytesWithContextAndFinalURL env rr ctx (S depth) fuel urlStr false w)
  = Done (bytes (payload (reply rsp)), RequestURL (reply rsp), None).
Proof.
  intros Hp Hg Hr. simpl. rewrite Hp. unfold bind at 1. rewrite Hg. simpl. rewrite Hr.
  destruct (extractJavaScriptRedirect _) as [finalURLStr found]. simpl.
  unfold bind, Body_Close, deferred_cancel. simpl. destruct cancel; reflexivity.
Qed.

(** Whatever the input, the chaser calls [GetResponse] at most twice and
    nests at most two deep. *)
Lemma chaser_bounded (env : Env) (rr : RetryRequest) (ctx : Context)
    (depth fuel : nat) (urlStr : string) (w : World) :
  (GetResponse_calls
     (snd (GetContentsAsBytesWithContextAndFinalURL env rr ctx depth fuel urlStr w))
   <= GetResponse_calls w + 2)%nat /\
  GetContentsAsBytesWithContextAndFinalURL env rr ctx (S (S depth)) fuel urlStr w
  = GetContentsAsBytesWithContextAndFinalURL env rr ctx 2 fuel urlStr w.
Proof.
  split.
  - revert w. change (adds_le is_GetResponse (1 + 1)
      (GetContentsAsBytesWithContextAndFinalURL env rr ctx depth fuel urlStr)).
    unfold GetContentsAsBytesWithContextAndFinalURL.
    destruct depth as [|depth]; simpl; [apply keeps_adds_le, keeps_diverge|].
    destruct (url_Parse env urlStr); [apply keeps_adds_le, keeps_ret|].
    apply (adds_le_bind is_GetResponse _ _ 1 1);
      [apply GetResponse_calls_le | intros [[resp cancel] err]].
    pose proof (deferred_cancel_keeps is_GetResponse cancel (fun _ => eq_refl)) as Hc.
    destruct err;
      [apply keeps_adds_le, keeps_bind; [exact Hc | intros _; apply keeps_ret]|].
    destruct resp;
      [|apply keeps_adds_le, keeps_bind; [exact Hc | intros _; apply keeps_ret]].
    simpl.
    assert (Hret : forall out : Fetched,
               keeps is_GetResponse
                 (Body_Close r ;;; deferred_cancel cancel ;;; ret out)%go).
    { intros out. apply keeps_bind; [apply keeps_Body_Close; reflexivity | intros _].
      apply keeps_bind; [exact Hc | intros _; apply keeps_ret]. }
    destruct (readErr _); [apply keeps_adds_le, Hret|].
    destruct (extractJavaScriptRedirect _) as [finalURLStr found]. simpl.
    destruct found; [|apply keeps_adds_le, Hret].
    apply (adds_le_bind is_GetResponse _ _ 1 0); [apply no_scan_one_fetch | intros out].
    apply keeps_adds_le, Hret.
  - unfold GetContentsAsBytesWithContextAndFinalURL.
    cbn [getContentsAsBytesWithContextAndFinalURL].
    destruct (url_Parse env urlStr); [reflexivity|].
    apply bind_ext. intros [[resp cancel] err] w1.
    destruct err; [reflexivity|]. destruct resp; [|reflexivity].
    cbn [io_ReadAll]. destruct (readErr _); [reflexivity|].
    destruct (extractJavaScriptRedirect _) as [finalURLStr found].
    destruct found; [|reflexivity]. cbn [andb].
    apply bind_cong_l. exact (no_scan_no_recursion env rr ctx depth fuel finalURLStr w1).
Qed.

(** C7: when the body fetched for [urlStr] holds a meta refresh or a
    [location.replace] with the target [target], the call is one follow-on
    fetch of [target] with scanning disabled, after which the first exchange
    is released: its outcome is the outcome of the call.  That follow-on
    fetch calls [GetResponse] at most once, so that the whole call makes at
    most two, and when it gets a body it returns this body and the url of
    its request as they are: a redirect in the second body is not looked
    for. *)
Theorem C7_one_extra_hop (env : Env) (rr : RetryRequest) (ctx : Context)
    (depth fuel : nat) (urlStr target : string) (w w1 : World) (rsp : Response)
    (cancel : option nat) :
  url_Parse env urlStr = None ->
  GetResponse env rr ctx urlStr fuel w = (Done (Some rsp, cancel, None), w1) ->
  readErr (payload (reply rsp)) = None ->
  extractJavaScriptRedirect (bytes (payload (reply rsp))) = (target, true) ->
  let follow := getContentsAsBytesWithContextAndFinalURL env rr ctx 1 fuel target false in
  GetContentsAsBytesWithContextAndFinalURL env rr ctx (S (S depth)) fuel urlStr w
    = (out <- follow ;; Body_Close rsp ;;; deferred_cancel cancel ;;; ret out)%go w1 /\
  (GetResponse_calls (snd (follow w1)) <= GetResponse_calls w1 + 1)%nat /\
  (GetResponse_calls
     (snd (GetContentsAsBytesWithContextAndFinalURL env rr ctx (S (S depth)) fuel urlStr w))
   <= GetResponse_calls w + 2)%nat /\
  (forall rsp2 cancel2 w2,
      url_Parse env target = None ->
      GetResponse env rr ctx target fuel w1 = (Done (Some rsp2, cancel2, None), w2) ->
      readErr (payload (reply rsp2)) = None ->
      fst (GetContentsAsBytesWithContextAndFinalURL env rr ctx (S (S depth)) fuel urlStr w)
      = Done (bytes (payload (reply rsp2)), RequestURL (reply rsp2), None)).
Proof.
  intros Hp Hg Hr Hx follow.
  assert (Heq : GetContentsAsBytesWithContextAndFinalURL env rr ctx (S (S depth)) fuel urlStr w
                = (out <- follow ;; Body_Close rsp ;;; deferred_cancel cancel ;;; ret out)%go w1).
  { unfold GetContentsAsBytesWithContextAndFinalURL.
    cbn [getContentsAsBytesWithContextAndFinalURL].
    rewrite Hp. rewrite (bind_step _ _ w w1 _ Hg).
    cbn [io_ReadAll]. rewrite Hr, Hx. cbn [andb].
    apply bind_cong_l. exact (no_scan_no_recursion env rr ctx depth fuel target w1). }
  split; [exact Heq|]. split; [apply no_scan_one_fetch|].
  split; [apply chaser_bounded|].
  intros rsp2 cancel2 w2 Hp2 Hg2 Hr2. rewrite Heq.
  pose proof (no_scan_returns_body env rr ctx 0 fuel target w1 w2 rsp2 cancel2 Hp2 Hg2 Hr2)
    as Hf.
  fold follow in Hf. unfold bind at 1.
  destruct (follow w1) as [[out| |] w3]; simpl in Hf; try discriminate.
  inversion Hf; subst.
  unfold bind, Body_Close, deferred_cancel. destruct cancel; reflexivity.
Qed.

Lemma C7_one_extra_hop_witness :
  let env := env_of ping_pong false in
  let first := GetResponse env NewRetryRequest Background url_a 10 World0 in
  let rsp := {| Body := 0; reply := plain_reply 200 (page_to url_b) 0 url_a |} in
  let whole := GetContentsAsBytesWithContextAndFinalURL env NewRetryRequest Background 2 10
                 url_a World0 in
  url_Parse env url_a = None /\
  first = (Done (Some rsp, Some 0%nat, None), snd first) /\
  readErr (payload (reply rsp)) = None /\
  extractJavaScriptRedirect (bytes (payload (reply rsp))) = (url_b, true) /\
  fst whole = Done (page_to url_a, url_b, None) /\
  (GetResponse_calls (snd whole) <= GetResponse_calls World0 + 2)%nat.
Proof.
  intros env first rsp whole.
  split; [reflexivity|]. split; [reflexivity|]. split; [reflexivity|]. split; [reflexivity|].
  destruct (C7_one_extra_hop env NewRetryRequest Background 0 10 url_a url_b World0
              (snd first) rsp (Some 0%nat) eq_refl eq_refl eq_refl eq_refl)
    as [_ [_ [H3 H4]]].
  split; [|exact H3].
  exact (H4 {| Body := 1; reply := plain_reply 200 (page_to url_a) 0 url_b |} (Some 1%nat)
            (snd (GetResponse env NewRetryRequest Background url_b 10 (snd first)))
            eq_refl eq_refl eq_refl).
Defined.

(** The two pages that redirect to each other: the call fetches the first,
    then the second, and returns the second as it is. *)
Example ping_pong_stops :
  let out := GetContentsAsBytesWithContextAndFinalURL (env_of ping_pong false) NewRetryRequest
               Background 2 10 url_a World0 in
  fst out = Done (page_to url_a, url_b, None) /\
  fetched (snd out) = [url_a; url_b] /\
  opened (snd out) = [].
Proof. vm_compute. repeat split; reflexivity. Qed.

(** ** The stream cursor *)

(** After a 206 whose body is drained without an end message and without
    an error, and a poll interval that passes, the loop polls again with the
    content length of that response as its cursor, whatever the cursor
    was. *)
Lemma cursor_after_206 (env : Env) (ctx : Context)
    (json_StartMessage : string -> option StartMessage)
    (json_EndMessage : string -> option EndMessage)
    (fuel : nat) (f f' : JSONLStreamFetcher) (lastBytePosition : Z)
    (defers : list Response) (w w2 w3 : World) (rep : Reply) (lines : list string) :
  newRequestErr env (URL f) = None ->
  result (transport env (sent w) (URL f)) = inl rep ->
  status rep = 206 ->
  bufio.scan (payload rep) = (lines, None) ->
  scanLoop json_StartMessage json_EndMessage lines f
    (snd (stream_Do env f lastBytePosition w)) = (Done (f', false), w2) ->
  select_ctx_timer (selectTie env) ctx (PollInterval f') w2 = (Done None, w3) ->
  pollLoop env ctx json_StartMessage json_EndMessage (S fuel) f lastBytePosition defers w
  = pollLoop env ctx json_StartMessage json_EndMessage fuel f' (ContentLength rep)
      ({| Body := sent w; reply := rep |} :: defers) w3.
Proof.
  intros Hreq Hres Hst Hscan Hloop Hsel.
  cbn [pollLoop]. rewrite Hreq.
  assert (Hdo : stream_Do env f lastBytePosition w
                = (Done (inl {| Body := sent w; reply := rep |}),
                   snd (stream_Do env f lastBytePosition w))).
  { unfold stream_Do. rewrite Hres. reflexivity. }
  rewrite (bind_step _ _ _ _ _ Hdo).
  cbn [reply]. rewrite Hst. cbn. rewrite Hscan.
  rewrite (bind_step _ _ _ _ _ Hloop).
  rewrite (bind_step _ _ _ _ _ Hsel). reflexivity.
Qed.


(** C9, on the code: after a 206 the cursor becomes the content length of
    that response, which is the length of the part sent.  Against a server
    that sends 100 bytes, then the 20 that follow, then nothing new, the
    offsets requested are none, 100, 20 and none again: the cursor goes from
    100 back to 20 and to 0. *)
Theorem C9_cursor_goes_back :
  let out := FetchJSONLStream (env_of growing_stream false) Background
               no_json_start no_json_end 10 (NewJSONLStreamFetcher url_a) World0 in
  ranges_sent (snd out) = [None; Some 100; Some 20; None] /\
  (exists f, fst out = Done (f, 0)).
Proof. vm_compute. split; [reflexivity | eexists; reflexivity]. Qed.
